(** * go-dropbox: a shallow embedding of the client and its file handle

    The development follows the two source files: the endpoint operations
    (files.go) and the client with its dispatcher, listing facade and
    streaming file handle.  Go values are modelled as follows.

    - [string] is Rocq's [string]; [[]byte] is [list byte].
    - [int] and [int64] are [Z]; no arithmetic that could wrap is performed
      on them by the modelled code (they are only compared and copied).
    - [error] is the inductive [error]; a nil error is [None].
    - [http.Header] is a [gmap string (list string)].
    - The HTTP transport ([Config.HTTPClient]) is a scripted fake: a list of
      answers consumed one per round trip, and a log of what it observed.
    - The packages encoding/json and net/http are parameters ([Library]). *)

From Stdlib Require Import ZArith String Ascii Lia Bool.
From Stdlib.Strings Require Import Byte.
From stdpp Require Import base gmap strings list.

Open Scope string_scope.
Open Scope list_scope.
Open Scope Z_scope.

(** ** Bytes and strings *)

Definition bytes := list byte.

(** [strings.HasPrefix(s, p)]. *)
Definition HasPrefix (s p : string) : bool := String.prefix p s.

(** [strings.Contains(s, sub)]. *)
Fixpoint Contains (s sub : string) : bool :=
  String.prefix sub s ||
  match s with
  | EmptyString => false
  | String _ s' => Contains s' sub
  end.

(** ** Errors *)

(** [syscall.Errno] values used by the handle. *)
Inductive Errno := ENOENT | EINVAL.

Definition Errno_Error (e : Errno) : string :=
  match e with
  | ENOENT => "no such file or directory"
  | EINVAL => "invalid argument"
  end.

(** Decoded JSON values. *)
#[local] Unset Elimination Schemes.
Inductive json :=
| JNull
| JBool (b : bool)
| JNumber (literal : string)
| JString (s : string)
| JArray (items : list json)
| JObject (members : list (string * json)).
#[local] Set Elimination Schemes.

Fixpoint json_member (k : string) (ms : list (string * json)) : option json :=
  match ms with
  | [] => None
  | (k', v) :: ms' => if String.eqb k k' then Some v else json_member k ms'
  end.

(** Modelled from the spec: the service error type [Error] is declared
    outside the files at hand.  It carries the HTTP status text, the numeric
    status code, and either a free-form summary (plain-text body) or the
    decoded JSON payload (JSON body). *)
Record Error := {
  Status : string;
  StatusCode : Z;
  Summary : string;
  Payload : option json
}.

(** Modelled from the spec: the [Error()] method of the service error, whose
    source is not at hand: the text of the decoded body, that is the summary
    for a plain-text body and the [error_summary] member of a JSON payload. *)
Definition Error_Error (e : Error) : string :=
  match Payload e with
  | Some (JObject ms) =>
      match json_member "error_summary" ms with
      | Some (JString s) => s
      | _ => Summary e
      end
  | _ => Summary e
  end.

Inductive error :=
| EOF                                         (* io.EOF *)
| ErrClosedPipe                               (* io.ErrClosedPipe *)
| PathError (Op Path : string) (Err : Errno)  (* *os.PathError *)
| ServiceError (e : Error)                    (* *Error *)
| OtherError (msg : string).                  (* transport and decoder errors *)

(** The [Error()] method of the [error] interface. *)
Definition error_Error (e : error) : string :=
  match e with
  | EOF => "EOF"
  | ErrClosedPipe => "io: read/write on closed pipe"
  | PathError op path err => op +:+ " " +:+ path +:+ ": " +:+ Errno_Error err
  | ServiceError e => Error_Error e
  | OtherError msg => msg
  end.

(** ** Request and response records (files.go) *)

Inductive WriteMode := WriteModeAdd | WriteModeOverwrite.

Definition WriteMode_string (m : WriteMode) : string :=
  match m with
  | WriteModeAdd => "add"
  | WriteModeOverwrite => "overwrite"
  end.

Record Metadata := {
  md_Tag : string;
  md_Name : string;
  md_PathLower : string;
  md_PathDisplay : string;
  md_ClientModified : string;
  md_ServerModified : string;
  md_Rev : string;
  md_Size : Z;
  md_ID : string;
  md_ContentHash : string
}.

Record GetMetadataInput := {
  gm_Path : string;
  gm_IncludeMediaInfo : bool
}.

Record ListFolderInput := {
  lf_Path : string;
  lf_Recursive : bool;
  lf_IncludeMediaInfo : bool;
  lf_IncludeDeleted : bool
}.

Record ListFolderOutput := {
  Cursor : string;
  HasMore : bool;
  Entries : list Metadata
}.

Record ListFolderContinueInput := { lc_Cursor : string }.

Record DownloadInput := { dl_Path : string }.

(** An [io.Reader] handed to the transport as a request body: bytes already
    in memory, or the read end of the pipe of a file handle. *)
Inductive Reader :=
| BytesReader (b : bytes)
| PipeReader.

Record UploadInput := {
  up_Path : string;
  up_Mode : WriteMode;
  up_AutoRename : bool;
  up_Mute : bool;
  up_ClientModified : string;
  up_Reader : option Reader
}.

(** The JSON object [json.Marshal] sees for each input record: the fields in
    declaration order under their [json:] tags; [omitempty] drops an empty
    string, [json:"-"] drops the field. *)
Definition marshal_GetMetadataInput (i : GetMetadataInput) : json :=
  JObject [("path", JString (gm_Path i));
           ("include_media_info", JBool (gm_IncludeMediaInfo i))].

Definition marshal_ListFolderInput (i : ListFolderInput) : json :=
  JObject [("path", JString (lf_Path i));
           ("recursive", JBool (lf_Recursive i));
           ("include_media_info", JBool (lf_IncludeMediaInfo i));
           ("include_deleted", JBool (lf_IncludeDeleted i))].

Definition marshal_ListFolderContinueInput (i : ListFolderContinueInput) : json :=
  JObject [("cursor", JString (lc_Cursor i))].

Definition marshal_DownloadInput (i : DownloadInput) : json :=
  JObject [("path", JString (dl_Path i))].

Definition marshal_UploadInput (i : UploadInput) : json :=
  JObject ([("path", JString (up_Path i));
            ("mode", JString (WriteMode_string (up_Mode i)));
            ("autorename", JBool (up_AutoRename i));
            ("mute", JBool (up_Mute i))] ++
           (if String.eqb (up_ClientModified i) "" then []
            else [("client_modified", JString (up_ClientModified i))])).

(** ** HTTP *)

(** [http.Header]: [Set] replaces the values of a key, [Get] returns the
    first value or the empty string.  Keys are in their canonical spelling;
    the source writes each key one way only. *)
Definition Header_Set (k v : string) (h : gmap string (list string)) :
  gmap string (list string) := <[k := [v]]> h.

Definition Header_Get (k : string) (h : gmap string (list string)) : string :=
  match h !! k with
  | Some (v :: _) => v
  | _ => ""
  end.

Record Request := {
  Method : string;
  URL : string;
  Req_Header : gmap string (list string);
  Req_Body : option Reader
}.

(** A response body ([io.ReadCloser]): the bytes still to be read, the error
    that ends the stream when it is not a clean end, the result of [Close],
    and whether it has been closed. *)
Record Body := {
  data : bytes;
  readErr : option error;
  closeErr : option error;
  isClosed : bool
}.

Record Response := {
  Res_StatusCode : Z;
  Res_Header : gmap string (list string);
  Res_Body : Body;
  ContentLength : Z
}.

(** What [HTTPClient.Do] returns: a response, or an error of the transport. *)
Inductive transport_result :=
| TResp (res : Response)
| TErr (e : error).

(** [io.ReadAll]: the bytes up to the end of the stream; an end by
    [io.EOF] is a clean end and is not reported. *)
Definition io_ReadAll (b : Body) : error + bytes :=
  match readErr b with
  | None | Some EOF => inr (data b)
  | Some e => inl e
  end.

(** [Read] on a response body with a buffer of [k] bytes. *)
Definition Body_Read (k : nat) (b : Body) : (bytes * option error) * Body :=
  if isClosed b then (([], Some (OtherError "http: read on closed response body")), b)
  else match data b with
       | [] => (([], Some (default EOF (readErr b))), b)
       | _ => ((take k (data b), None),
               {| data := drop k (data b); readErr := readErr b;
                  closeErr := closeErr b; isClosed := isClosed b |})
       end.

Definition Body_Close (b : Body) : option error * Body :=
  (closeErr b,
   {| data := data b; readErr := readErr b; closeErr := closeErr b; isClosed := true |}).

(** ** The packages the client relies on *)

Class Library := {
  (** [json.Marshal] on the JSON value of a record, as text. *)
  json_Marshal : json -> string;
  (** [json.NewDecoder(body).Decode] into a service error's payload. *)
  decode_Payload : Body -> error + json;
  (** [json.NewDecoder(body).Decode(&out)] for a listing page: the pointer
      [out] afterwards ([None] is nil, as a JSON [null] leaves it) and the
      error returned. *)
  decode_ListFolderOutput : Body -> option ListFolderOutput * option error;
  (** The same for a metadata record. *)
  decode_Metadata : Body -> option Metadata * option error;
  (** [http.StatusText]. *)
  http_StatusText : Z -> string
}.

(** ** The transport and the world *)

(** The fake transport: the answers still to be given and the requests seen
    so far, each with the bytes read from its body. *)
Record World := {
  script : list transport_result;
  log : list (Request * bytes)
}.

(** One round trip, once the transport has read [sent] from the request
    body: the request is logged and the next scripted answer is returned; a
    transport with nothing left to answer fails. *)
Definition round_trip (req : Request) (sent : bytes) (w : World) :
  transport_result * World :=
  match script w with
  | [] => (TErr (OtherError "transport: no response"),
           {| script := []; log := log w ++ [(req, sent)] |})
  | r :: rest => (r, {| script := rest; log := log w ++ [(req, sent)] |})
  end.

(** Results of sequential code: a value, a run-time panic, or a call that
    never returns. *)
Inductive outcome (A : Type) :=
| Ret (a : A)
| Panic
| Hang.
Arguments Ret {A} a.
Arguments Panic {A}.
Arguments Hang {A}.

Definition M (A : Type) : Type := World -> outcome (A * World).

Definition ret {A} (a : A) : M A := fun w => Ret (a, w).

Definition bind {A B} (m : M A) (k : A -> M B) : M B :=
  fun w => match m w with
           | Ret (a, w') => k a w'
           | Panic => Panic
           | Hang => Hang
           end.

Notation "x <- m ;; k" := (bind m (fun x => k))
  (at level 100, m at next level, right associativity).

(** [HTTPClient.Do].  A body in memory is read to its end.  What the
    transport reads from the read end of a pipe depends on the other end:
    [piped] holds the bytes handed over by the time the transport answers;
    in sequential code nobody writes to the pipe ([None]), and the call never
    returns. *)
Definition HTTPClient_Do (piped : option bytes) (req : Request) : M transport_result :=
  fun w => match Req_Body req with
           | None => Ret (round_trip req [] w)
           | Some (BytesReader b) => Ret (round_trip req b w)
           | Some PipeReader =>
               match piped with
               | Some b => Ret (round_trip req b w)
               | None => Hang
               end
           end.

(** ** The client: request dispatch *)

(** The part of [Config] the dispatcher reads; the HTTP client of the
    configuration is the transport of the [World]. *)
Record Client := { AccessToken : string }.

(** [http.NewRequest]; the method and the URLs built below are well formed,
    so no error arises. *)
Definition NewRequest (method url : string) (body : option Reader) : Request :=
  {| Method := method; URL := url; Req_Header := ∅; Req_Body := body |}.

Definition Request_SetHeader (k v : string) (req : Request) : Request :=
  {| Method := Method req; URL := URL req;
     Req_Header := Header_Set k v (Req_Header req); Req_Body := Req_Body req |}.

Definition Error_withSummary (s : string) (e : Error) : Error :=
  {| Status := Status e; StatusCode := StatusCode e; Summary := s; Payload := Payload e |}.

Definition Error_withPayload (j : json) (e : Error) : Error :=
  {| Status := Status e; StatusCode := StatusCode e; Summary := Summary e; Payload := Some j |}.

Section Dispatch.
Context `{Library}.

(** [Client.do], after the transport has answered: the body, the content
    length and the error it returns.  In the text/plain branch the error of
    [io.ReadAll] is declared by the inner [if] and out of scope after it: the
    [err] returned there is the one of [HTTPClient.Do], which is nil. *)
Definition Client_do_finish (r : transport_result) : option Body * Z * option error :=
  match r with
  | TErr err => (None, 0, Some err)
  | TResp res =>
      if Res_StatusCode res <? 400 then (Some (Res_Body res), ContentLength res, None)
      else
        let e := {| Status := http_StatusText (Res_StatusCode res);
                    StatusCode := Res_StatusCode res;
                    Summary := ""; Payload := None |} in
        let kind := Header_Get "Content-Type" (Res_Header res) in
        if Contains kind "text/plain" then
          match io_ReadAll (Res_Body res) with
          | inr b => (None, 0, Some (ServiceError (Error_withSummary (string_of_list_byte b) e)))
          | inl _ => (None, 0, None)
          end
        else
          match decode_Payload (Res_Body res) with
          | inl err => (None, 0, Some err)
          | inr j => (None, 0, Some (ServiceError (Error_withPayload j e)))
          end
  end.

(** [Client.do]. *)
Definition Client_do (piped : option bytes) (req : Request) :
  M (option Body * Z * option error) :=
  res <- HTTPClient_Do piped req ;;
  ret (Client_do_finish res).

(** The request [Client.call] builds. *)
Definition call_request (c : Client) (path : string) (in_ : json) : Request :=
  let url := "https://api.dropboxapi.com/2" +:+ path in
  let body := json_Marshal in_ in
  let req := NewRequest "POST" url (Some (BytesReader (list_byte_of_string body))) in
  let req := Request_SetHeader "Authorization" ("Bearer " +:+ AccessToken c) req in
  Request_SetHeader "Content-Type" "application/json" req.

(** [Client.call]; its request body is in memory. *)
Definition Client_call (c : Client) (path : string) (in_ : json) :
  M (option Body * option error) :=
  x <- Client_do None (call_request c path in_) ;;
  let '(r, _, err) := x in
  ret (r, err).

(** The request [Client.download] builds. *)
Definition download_request (c : Client) (path : string) (in_ : json)
    (r : option Reader) : Request :=
  let url := "https://content.dropboxapi.com/2" +:+ path in
  let body := json_Marshal in_ in
  let req := NewRequest "POST" url r in
  let req := Request_SetHeader "Authorization" ("Bearer " +:+ AccessToken c) req in
  let req := Request_SetHeader "Dropbox-API-Arg" body req in
  match r with
  | Some _ => Request_SetHeader "Content-Type" "application/octet-stream" req
  | None => req
  end.

(** [Client.download]: the content-style call. *)
Definition Client_download (piped : option bytes) (c : Client) (path : string)
    (in_ : json) (r : option Reader) : M (option Body * Z * option error) :=
  Client_do piped (download_request c path in_ r).

(** The request [Client.pipe] builds. *)
Definition pipe_request (c : Client) (path : string) (in_ : json)
    (filter : option (gmap string (list string) -> gmap string (list string))) : Request :=
  let url := "https://content.dropboxapi.com/2" +:+ path in
  let body := json_Marshal in_ in
  let req := NewRequest "POST" url None in
  let req := Request_SetHeader "Authorization" ("Bearer " +:+ AccessToken c) req in
  let req := Request_SetHeader "Dropbox-API-Arg" body req in
  match filter with
  | Some f => {| Method := Method req; URL := URL req;
                 Req_Header := f (Req_Header req); Req_Body := Req_Body req |}
  | None => req
  end.

(** [Client.pipe]: the raw stream call. *)
Definition Client_pipe (c : Client) (path : string) (in_ : json)
    (filter : option (gmap string (list string) -> gmap string (list string))) :
  M transport_result :=
  HTTPClient_Do None (pipe_request c path in_ filter).

(** ** Endpoint operations (files.go) *)

Definition normalizePath (s : string) : string :=
  if String.eqb s "/" then "" else s.

(** [Files.GetMetadata]; [defer body.Close()] on a nil body panics. *)
Definition Files_GetMetadata (c : Client) (in_ : GetMetadataInput) :
  M (option Metadata * option error) :=
  r <- Client_call c "/files/get_metadata" (marshal_GetMetadataInput in_) ;;
  match r with
  | (_, Some err) => ret (None, Some err)
  | (None, None) => fun _ => Panic
  | (Some body, None) => ret (decode_Metadata body)
  end.

(** [Files.ListFolder].  The input is passed by pointer: the record the
    caller holds after the call is returned with the result. *)
Definition Files_ListFolder (c : Client) (in_ : ListFolderInput) :
  M (ListFolderInput * (option ListFolderOutput * option error)) :=
  let in_ := {| lf_Path := normalizePath (lf_Path in_);
                lf_Recursive := lf_Recursive in_;
                lf_IncludeMediaInfo := lf_IncludeMediaInfo in_;
                lf_IncludeDeleted := lf_IncludeDeleted in_ |} in
  r <- Client_call c "/files/list_folder" (marshal_ListFolderInput in_) ;;
  match r with
  | (_, Some err) => ret (in_, (None, Some err))
  | (None, None) => fun _ => Panic
  | (Some body, None) => ret (in_, decode_ListFolderOutput body)
  end.

(** [Files.ListFolderContinue]. *)
Definition Files_ListFolderContinue (c : Client) (in_ : ListFolderContinueInput) :
  M (option ListFolderOutput * option error) :=
  r <- Client_call c "/files/list_folder/continue" (marshal_ListFolderContinueInput in_) ;;
  match r with
  | (_, Some err) => ret (None, Some err)
  | (None, None) => fun _ => Panic
  | (Some body, None) => ret (decode_ListFolderOutput body)
  end.

(** [Files.Download]; the output holds the body, which may be nil, and its
    length. *)
Definition Files_Download (c : Client) (in_ : DownloadInput) :
  M (option (option Body * Z) * option error) :=
  r <- Client_download None c "/files/download" (marshal_DownloadInput in_) None ;;
  match r with
  | (_, _, Some err) => ret (None, Some err)
  | (body, l, None) => ret (Some (body, l), None)
  end.

(** [Files.Upload]; [piped] is what the transport reads when the reader is
    the read end of a pipe. *)
Definition Files_Upload (piped : option bytes) (c : Client) (in_ : UploadInput) :
  M (option Metadata * option error) :=
  r <- Client_download piped c "/files/upload" (marshal_UploadInput in_) (up_Reader in_) ;;
  match r with
  | (_, _, Some err) => ret (None, Some err)
  | (None, _, None) => fun _ => Panic
  | (Some body, _, None) => ret (decode_Metadata body)
  end.

(** [Files.Stream]. *)
Definition Files_Stream (c : Client) (in_ : DownloadInput)
    (reqFilter : option (gmap string (list string) -> gmap string (list string))) :
  M transport_result :=
  Client_pipe c "/files/download" (marshal_DownloadInput in_) reqFilter.

(** [Client.GetStream]. *)
Definition Client_GetStream (c : Client) (name : string)
    (reqFilter : option (gmap string (list string) -> gmap string (list string))) :
  M transport_result :=
  Files_Stream c {| dl_Path := name |} reqFilter.

End Dispatch.

(** ** File-info adapter *)

Record FileInfo := { meta : Metadata }.

Definition FileInfo_Name (f : FileInfo) : string := md_Name (meta f).

(** [FileInfo.Size]: the conversion [int64(f.meta.Size)] of a [uint64]
    keeps the 64 bits and reads them as a signed number. *)
Definition FileInfo_Size (f : FileInfo) : Z :=
  let u := md_Size (meta f) mod 2 ^ 64 in
  if u <? 2 ^ 63 then u else u - 2 ^ 64.

Definition FileInfo_IsDir (f : FileInfo) : bool := String.eqb (md_Tag (meta f)) "folder".

(** [os.ModeDir], the permission bits [os.ModePerm], and the methods
    [IsDir] and [Perm] of [os.FileMode] (a 32-bit set of flags). *)
Definition ModeDir : Z := 2 ^ 31.
Definition ModePerm : Z := 511.
Definition FileMode_IsDir (m : Z) : bool := negb (Z.land m ModeDir =? 0).
Definition FileMode_Perm (m : Z) : Z := Z.land m ModePerm.

(** [FileInfo.Mode]. *)
Definition FileInfo_Mode (f : FileInfo) : Z :=
  let m := 0 in
  if FileInfo_IsDir f then Z.lor m ModeDir else m.

(** ** Listing facade *)

Section Listing.
Context `{Library}.

(** The code after the loop of [ListN]. *)
Definition ListN_end (n : Z) (lst : list FileInfo) : list FileInfo * option error :=
  if (0 <=? n) && (Z.of_nat (length lst) =? 0) then (lst, Some EOF)
  else (lst, None).

(** The loop of [ListN]; [fuel] bounds the number of iterations. *)
Fixpoint ListN_loop (fuel : nat) (c : Client) (name : string) (n : Z)
    (cursor : string) (lst : list FileInfo) : M (list FileInfo * option error) :=
  match fuel with
  | O => fun _ => Hang
  | S fuel' =>
      r <- (if String.eqb cursor "" then
              x <- Files_ListFolder c {| lf_Path := name; lf_Recursive := false;
                                         lf_IncludeMediaInfo := false;
                                         lf_IncludeDeleted := false |} ;;
              ret (snd x)
            else
              Files_ListFolderContinue c {| lc_Cursor := cursor |}) ;;
      match r with
      | (_, Some err) => ret (lst, Some err)
      | (None, None) => fun _ => Panic
      | (Some out, None) =>
          let cursor := Cursor out in
          let lst := lst ++ map Build_FileInfo (Entries out) in
          if (0 <=? n) && (n <=? Z.of_nat (length lst)) then
            ret (ListN_end n (take (Z.to_nat n) lst))
          else if negb (HasMore out) then
            ret (ListN_end n lst)
          else
            ListN_loop fuel' c name n cursor lst
      end
  end.

(** [Client.ListN].  Every iteration makes one round trip and stops when
    the transport has nothing left to answer, so one more iteration than
    there are scripted answers is all the loop can use. *)
Definition Client_ListN (c : Client) (name : string) (n : Z) :
  M (list FileInfo * option error) :=
  let n := if n <=? 0 then -1 else n in
  fun w => ListN_loop (S (length (script w))) c name n "" [] w.

(** [Client.List]. *)
Definition Client_List (c : Client) (name : string) : M (list FileInfo * option error) :=
  Client_ListN c name 0.

(** [Client.ListFilter]. *)
Definition Client_ListFilter (c : Client) (name : string) (filter : FileInfo -> bool) :
  M (list FileInfo * option error) :=
  r <- Client_ListN c name 0 ;;
  match r with
  | (_, Some err) => ret ([], Some err)
  | (ents, None) => ret (List.filter filter ents, None)
  end.

(** [Client.ListFolders]. *)
Definition Client_ListFolders (c : Client) (name : string) :
  M (list FileInfo * option error) :=
  Client_ListFilter c name (fun info => FileInfo_IsDir info).

(** [Client.ListFiles]. *)
Definition Client_ListFiles (c : Client) (name : string) :
  M (list FileInfo * option error) :=
  Client_ListFilter c name (fun info => negb (FileInfo_IsDir info)).

(** [Client.Stat]; taking [&out.Metadata] of a nil [out] panics. *)
Definition Client_Stat (c : Client) (name : string) : M (option FileInfo * option error) :=
  r <- Files_GetMetadata c {| gm_Path := name; gm_IncludeMediaInfo := false |} ;;
  match r with
  | (_, Some err) => ret (None, Some err)
  | (Some out, None) => ret (Some {| meta := out |}, None)
  | (None, None) => fun _ => Panic
  end.

End Listing.

(** ** The streaming file handle *)

(** [io.Pipe]: the first error each end was closed with.  The pipe is done
    once either end is closed. *)
Record Pipe := {
  rerr : option error;
  werr : option error
}.

Definition Pipe_done (p : Pipe) : bool :=
  match rerr p, werr p with
  | None, None => false
  | _, _ => true
  end.

Definition readCloseError (p : Pipe) : error :=
  match rerr p, werr p with
  | None, Some e => e
  | _, _ => ErrClosedPipe
  end.

Definition writeCloseError (p : Pipe) : error :=
  match werr p, rerr p with
  | None, Some e => e
  | _, _ => ErrClosedPipe
  end.

(** [PipeWriter.Close]: the write end is closed with [io.EOF], unless it
    was closed before; the call returns nil. *)
Definition PipeWriter_Close (p : Pipe) : option error * Pipe :=
  (None, {| rerr := rerr p;
            werr := match werr p with Some e => Some e | None => Some EOF end |}).

(** [PipeReader.CloseWithError(err)]: a nil [err] stands for
    [io.ErrClosedPipe]. *)
Definition PipeReader_CloseWithError (err : option error) (p : Pipe) : Pipe :=
  {| rerr := match rerr p with
             | Some e => Some e
             | None => Some (default ErrClosedPipe err)
             end;
     werr := werr p |}.

(** The handle.  [pipe] is the pipe whose two ends the fields [pipeR] and
    [pipeW] of the source hold. *)
Record File := {
  Name : string;
  closed : bool;
  writing : bool;
  reader : option Body;
  pipe : Pipe
}.

Definition File_withReader (b : Body) (f : File) : File :=
  {| Name := Name f; closed := closed f; writing := writing f;
     reader := Some b; pipe := pipe f |}.

Definition File_setReader (b : option Body) (f : File) : File :=
  {| Name := Name f; closed := closed f; writing := writing f;
     reader := b; pipe := pipe f |}.

Definition File_withPipe (p : Pipe) (f : File) : File :=
  {| Name := Name f; closed := closed f; writing := writing f;
     reader := reader f; pipe := p |}.

(** [Client.Open]. *)
Definition Client_Open (name : string) : File :=
  {| Name := name; closed := false; writing := false; reader := None;
     pipe := {| rerr := None; werr := None |} |}.

(** [File.Close]. *)
Definition File_Close (f : File) : option error * File :=
  if closed f then (Some (PathError "close" (Name f) EINVAL), f)
  else
    let f := {| Name := Name f; closed := true; writing := writing f;
                reader := reader f; pipe := pipe f |} in
    let '(err, f) :=
      if writing f then
        let '(err, p) := PipeWriter_Close (pipe f) in (err, File_withPipe p f)
      else (None, f) in
    match err with
    | Some e => (Some e, f)
    | None =>
        match reader f with
        | Some b =>
            let '(err, b) := Body_Close b in
            (err, File_withReader b f)
        | None => (None, f)
        end
    end.

(** The first lines of [File.Write]: the writing flag is set on the first
    write, and the result tells whether the uploader is launched. *)
Definition File_Write_enter (f : File) : File * bool :=
  if negb (writing f) then
    ({| Name := Name f; closed := closed f; writing := true;
        reader := reader f; pipe := pipe f |}, true)
  else (f, false).

(** The record the uploader passes to [Files.Upload]. *)
Definition uploader_input (f : File) : UploadInput :=
  {| up_Path := Name f; up_Mode := WriteModeOverwrite; up_AutoRename := false;
     up_Mute := true; up_ClientModified := ""; up_Reader := Some PipeReader |}.

Section Handle.
Context `{Library}.

(** [File.download]. *)
Definition File_download (c : Client) (f : File) : M (option error * File) :=
  r <- Files_Download c {| dl_Path := Name f |} ;;
  match r with
  | (_, Some err) =>
      if HasPrefix (error_Error err) "path/not_found/" then
        ret (Some (PathError "open" (Name f) ENOENT), f)
      else ret (Some err, f)
  | (Some (body, _), None) => ret (None, File_setReader body f)
  | (None, None) => fun _ => Panic
  end.

(** [f.reader.Read(b)] with a buffer of [k] bytes. *)
Definition File_reader_Read (k : nat) (f : File) : M ((bytes * option error) * File) :=
  match reader f with
  | Some b => let '(r, b') := Body_Read k b in ret (r, File_withReader b' f)
  | None => fun _ => Panic
  end.

(** [File.Read] with a buffer of [k] bytes: the bytes read and the error. *)
Definition File_Read (c : Client) (k : nat) (f : File) :
  M ((bytes * option error) * File) :=
  match reader f with
  | None =>
      x <- File_download c f ;;
      match x with
      | (Some err, f) => ret (([], Some err), f)
      | (None, f) => File_reader_Read k f
      end
  | Some _ => File_reader_Read k f
  end.

(** [io.ReadAll(f)]: the handle is read until [Read] returns an error, and
    [io.EOF] is turned into nil.  The buffer offered to the [i]-th read has
    [sizes i] bytes (the free part of a slice that grows as it fills);
    [fuel] bounds the number of reads. *)
Fixpoint ReadAll_loop (fuel : nat) (c : Client) (sizes : nat -> nat) (i : nat)
    (f : File) (acc : bytes) : M ((bytes * option error) * File) :=
  match fuel with
  | O => fun _ => Hang
  | S fuel' =>
      x <- File_Read c (sizes i) f ;;
      let '((b, err), f) := x in
      let acc := acc ++ b in
      match err with
      | Some EOF => ret ((acc, None), f)
      | Some e => ret ((acc, Some e), f)
      | None => ReadAll_loop fuel' c sizes (S i) f acc
      end
  end.

(** [Client.Read]: open, read all, and close on the way out; the result of
    the deferred close is dropped. *)
Definition Client_Read (fuel : nat) (c : Client) (name : string) (sizes : nat -> nat) :
  M (bytes * option error) :=
  let f := Client_Open name in
  x <- ReadAll_loop fuel c sizes 0 f [] ;;
  let '(r, f) := x in
  let '(_, _) := File_Close f in
  ret r.

End Handle.

(** ** The handle at work: the caller and the uploader

    [File.Write] launches the uploader on the first write and then writes
    to the pipe, which hands bytes over only while the transport is reading
    the request body.  The caller and the uploader are two threads over one
    state; a [move] picks which of them advances.  The transport answers
    when it has seen the end of the body, or earlier: when is up to it. *)

Inductive op :=
| OpRead (k : nat)
| OpWrite (b : bytes)
| OpClose.

Inductive result :=
| ReadResult (b : bytes) (err : option error)
| WriteResult (n : nat) (err : option error)
| CloseResult (err : option error).

(** How the uploader ended: [Files.Upload] returned and the read end was
    closed with its error, or it panicked, which ends the program. *)
Inductive upload_end :=
| Returned (err : option error)
| Panicked.

(** The uploader goroutine: not launched, launched, inside
    [HTTPClient.Do] with the bytes read from the pipe so far, ended. *)
Inductive uploader :=
| UIdle
| USpawned
| USending (req : Request) (acc : bytes)
| UDone (e : upload_end).

Record Machine := {
  file : File;
  world : World;
  todo : list op;
  (** the caller inside [pipeW.Write]: the bytes not yet handed over and
      the count of those that were *)
  cur : option (bytes * nat);
  results : list result;
  up : uploader
}.

Inductive move :=
| MCaller
| MUploader
| MTransfer (k : nat)
| MAnswer.

Definition Machine_init (name : string) (ops : list op) (w : World) : Machine :=
  {| file := Client_Open name; world := w; todo := ops; cur := None;
     results := []; up := UIdle |}.

Section Machine.
Context `{Library}.

(** The caller advances: it leaves a write that found the pipe closed, or
    starts its next operation. *)
Definition step_caller (c : Client) (s : Machine) : option Machine :=
  match cur s with
  | Some (b, n) =>
      if Pipe_done (pipe (file s)) then
        Some {| file := file s; world := world s; todo := todo s; cur := None;
                results := results s ++ [WriteResult n (Some (writeCloseError (pipe (file s))))];
                up := up s |}
      else None
  | None =>
      match todo s with
      | [] => None
      | OpRead k :: rest =>
          match File_Read c k (file s) (world s) with
          | Ret (((b, err), f), w) =>
              Some {| file := f; world := w; todo := rest; cur := None;
                      results := results s ++ [ReadResult b err]; up := up s |}
          | _ => None
          end
      | OpClose :: rest =>
          let '(err, f) := File_Close (file s) in
          Some {| file := f; world := world s; todo := rest; cur := None;
                  results := results s ++ [CloseResult err]; up := up s |}
      | OpWrite b :: rest =>
          let '(f, launch) := File_Write_enter (file s) in
          Some {| file := f; world := world s; todo := rest; cur := Some (b, 0%nat);
                  results := results s;
                  up := if launch then USpawned else up s |}
      end
  end.

(** The uploader once the transport answers, having read [acc] from the
    pipe: [Files.Upload] returns and the read end is closed with its error,
    or it panics after the transport has answered. *)
Definition uploader_return (c : Client) (acc : bytes) (s : Machine) : Machine :=
  let in_ := uploader_input (file s) in
  match Files_Upload (Some acc) c in_ (world s) with
  | Ret ((_, err), w) =>
      {| file := File_withPipe (PipeReader_CloseWithError err (pipe (file s))) (file s);
         world := w; todo := todo s; cur := cur s; results := results s;
         up := UDone (Returned err) |}
  | _ =>
      {| file := file s;
         world := match HTTPClient_Do (Some acc)
                          (download_request c "/files/upload"
                             (marshal_UploadInput in_) (up_Reader in_)) (world s) with
                  | Ret (_, w) => w
                  | _ => world s
                  end;
         todo := todo s; cur := cur s; results := results s;
         up := UDone Panicked |}
  end.

(** The uploader advances: it builds the upload request and enters the
    transport, or, once the pipe is done, the transport sees the end of
    the body and answers. *)
Definition step_uploader (c : Client) (s : Machine) : option Machine :=
  match up s with
  | USpawned =>
      let in_ := uploader_input (file s) in
      Some {| file := file s; world := world s; todo := todo s; cur := cur s;
              results := results s;
              up := USending (download_request c "/files/upload"
                                (marshal_UploadInput in_) (up_Reader in_)) [] |}
  | USending req acc =>
      if Pipe_done (pipe (file s)) then Some (uploader_return c acc s)
      else None
  | _ => None
  end.

(** The transport answers before the end of the body. *)
Definition step_answer (c : Client) (s : Machine) : option Machine :=
  match up s with
  | USending req acc =>
      if Pipe_done (pipe (file s)) then None
      else Some (uploader_return c acc s)
  | _ => None
  end.

(** The pipe hands bytes over: the transport reads with a buffer of [k]
    bytes while the caller is inside [pipeW.Write]. *)
Definition step_transfer (k : nat) (s : Machine) : option Machine :=
  match cur s, up s with
  | Some (b, n), USending req acc =>
      if (0 <? k)%nat && negb (Pipe_done (pipe (file s))) then
        let nr := Nat.min k (length b) in
        match drop nr b with
        | [] =>
            Some {| file := file s; world := world s; todo := todo s; cur := None;
                    results := results s ++ [WriteResult (n + nr) None];
                    up := USending req (acc ++ take nr b) |}
        | b' =>
            Some {| file := file s; world := world s; todo := todo s;
                    cur := Some (b', (n + nr)%nat); results := results s;
                    up := USending req (acc ++ take nr b) |}
        end
      else None
  | _, _ => None
  end.

(** A panic of the uploader has ended the program. *)
Definition crashed (s : Machine) : bool :=
  match up s with
  | UDone Panicked => true
  | _ => false
  end.

Definition step (c : Client) (m : move) (s : Machine) : option Machine :=
  if crashed s then None
  else match m with
       | MCaller => step_caller c s
       | MUploader => step_uploader c s
       | MTransfer k => step_transfer k s
       | MAnswer => step_answer c s
       end.

(** The schedules in which the transport reads every request body to its
    end before it answers. *)
Definition is_early (m : move) : bool :=
  match m with
  | MAnswer => true
  | _ => false
  end.

Definition draining (ms : list move) : bool := forallb (fun m => negb (is_early m)) ms.

(** A schedule is run move by move; it fails where a move is not enabled. *)
Fixpoint run (c : Client) (ms : list move) (s : Machine) : option Machine :=
  match ms with
  | [] => Some s
  | m :: ms' =>
      match step c m s with
      | Some s' => run c ms' s'
      | None => None
      end
  end.

(** No move is enabled. *)
Definition stuck (c : Client) (s : Machine) : Prop :=
  forall m, step c m s = None.

End Machine.

(** ** A library for examples

    [json.Marshal] as the plain renderer (right for values whose strings hold
    no character that needs escaping), decoders given by the table of the
    bodies an example uses, and the status texts of net/http for the codes
    the examples use. *)

Definition dquote : string := String (Ascii.ascii_of_nat 34) "".

Fixpoint render (j : json) : string :=
  match j with
  | JNull => "null"
  | JBool b => if b then "true" else "false"
  | JNumber l => l
  | JString s => dquote +:+ s +:+ dquote
  | JArray items =>
      "[" +:+
      (fix go (l : list json) : string :=
         match l with
         | [] => ""
         | [x] => render x
         | x :: l' => render x +:+ "," +:+ go l'
         end) items +:+ "]"
  | JObject ms =>
      "{" +:+
      (fix go (l : list (string * json)) : string :=
         match l with
         | [] => ""
         | [(k, v)] => dquote +:+ k +:+ dquote +:+ ":" +:+ render v
         | (k, v) :: l' => dquote +:+ k +:+ dquote +:+ ":" +:+ render v +:+ "," +:+ go l'
         end) ms +:+ "}"
  end.

Fixpoint table_lookup {A} (t : list (string * A)) (k : string) : option A :=
  match t with
  | [] => None
  | (k', a) :: t' => if String.eqb k k' then Some a else table_lookup t' k
  end.

Definition table_decode {A} (t : list (string * A)) (b : Body) : error + A :=
  match data b with
  | [] => inl (default EOF (readErr b))
  | _ =>
      match table_lookup t (string_of_list_byte (data b)) with
      | Some a => inr a
      | None => inl (OtherError "invalid character looking for beginning of value")
      end
  end.

Definition table_decode_ptr {A} (t : list (string * A)) (b : Body) : option A * option error :=
  match table_decode t b with
  | inl e => (None, Some e)
  | inr a => (Some a, None)
  end.

Definition StatusText (code : Z) : string :=
  match code with
  | 200 => "OK"
  | 206 => "Partial Content"
  | 400 => "Bad Request"
  | 401 => "Unauthorized"
  | 403 => "Forbidden"
  | 404 => "Not Found"
  | 409 => "Conflict"
  | 429 => "Too Many Requests"
  | 500 => "Internal Server Error"
  | 502 => "Bad Gateway"
  | 503 => "Service Unavailable"
  | _ => ""
  end.

Definition example_library (payloads : list (string * json))
    (pages : list (string * ListFolderOutput)) : Library :=
  {| json_Marshal := render;
     decode_Payload := table_decode payloads;
     decode_ListFolderOutput := table_decode_ptr pages;
     decode_Metadata := table_decode_ptr [];
     http_StatusText := StatusText |}.

(** A response with the given status, content type and body. *)
Definition response (code : Z) (kind : string) (body : string) : Response :=
  {| Res_StatusCode := code;
     Res_Header := Header_Set "Content-Type" kind ∅;
     Res_Body := {| data := list_byte_of_string body; readErr := None;
                    closeErr := None; isClosed := false |};
     ContentLength := Z.of_nat (String.length body) |}.

(** A file entry that has only its tag and name set, and the JSON the
    service sends for such an entry and for a page of them. *)
Definition file_entry (name : string) : Metadata :=
  {| md_Tag := "file"; md_Name := name; md_PathLower := ""; md_PathDisplay := "";
     md_ClientModified := ""; md_ServerModified := ""; md_Rev := ""; md_Size := 0;
     md_ID := ""; md_ContentHash := "" |}.

Definition folder_entry (name : string) : Metadata :=
  {| md_Tag := "folder"; md_Name := name; md_PathLower := ""; md_PathDisplay := "";
     md_ClientModified := ""; md_ServerModified := ""; md_Rev := ""; md_Size := 0;
     md_ID := ""; md_ContentHash := "" |}.

Definition entry_json (m : Metadata) : json :=
  JObject [(".tag", JString (md_Tag m)); ("name", JString (md_Name m))].

Definition page_body (p : ListFolderOutput) : string :=
  render (JObject [("entries", JArray (map entry_json (Entries p)));
                   ("cursor", JString (Cursor p));
                   ("has_more", JBool (HasMore p))]).

Definition page_table (pages : list ListFolderOutput) : list (string * ListFolderOutput) :=
  map (fun p => (page_body p, p)) pages.

Definition page_responses (pages : list ListFolderOutput) : list transport_result :=
  map (fun p => TResp (response 200 "application/json" (page_body p))) pages.

(** The example library with decoders that, as encoding/json does, leave
    the output pointer nil without an error on the body "null". *)
Definition null_aware {A} (d : Body -> option A * option error) (b : Body) :
  option A * option error :=
  if String.eqb (string_of_list_byte (data b)) "null" then (None, None) else d b.

Definition example_library_null (payloads : list (string * json))
    (pages : list (string * ListFolderOutput)) : Library :=
  {| json_Marshal := render;
     decode_Payload := table_decode payloads;
     decode_ListFolderOutput := null_aware (table_decode_ptr pages);
     decode_Metadata := null_aware (table_decode_ptr []);
     http_StatusText := StatusText |}.

(** ** Scripted listings *)

(** A listing as the service emits it: has-more is set on every page but
    the last. *)
Fixpoint listing (pages : list ListFolderOutput) : Prop :=
  match pages with
  | [] => False
  | [p] => HasMore p = false
  | p :: ps => HasMore p = true /\ listing ps
  end.

(** The entries of the pages, in order, as file infos. *)
Definition entries (pages : list ListFolderOutput) : list FileInfo :=
  concat (map (fun p => map Build_FileInfo (Entries p)) pages).

(** The answer [r] of the transport is a response that is not an error and
    whose body decodes to the page [p]. *)
Definition page_answer `{Library} (r : transport_result) (p : ListFolderOutput) : Prop :=
  exists res, r = TResp res /\ Res_StatusCode res < 400 /\
              decode_ListFolderOutput (Res_Body res) = (Some p, None).

(** ** Writing a sequence of chunks and closing *)



(** The results of writes that handed over all their bytes. *)
Definition oks (chunks : list bytes) : list result :=
  map (fun b => WriteResult (length b) None) chunks.

(** The number of writes that returned without an error. *)
Definition is_full_write (r : result) : bool :=
  match r with
  | WriteResult _ None => true
  | _ => false
  end.

Definition full_writes (rs : list result) : nat :=
  length (List.filter is_full_write rs).

Section WriteThenClose.
Context `{Library}.
Variables (c : Client) (name : string) (bs : list bytes) (w0 : World).

(** The caller's program: write each chunk, then close. *)
Definition write_close_init : Machine :=
  Machine_init name (map OpWrite bs ++ [OpClose]) w0.

(** The upload request of the handle. *)
Definition upload_request : Request :=
  download_request c "/files/upload"
    (marshal_UploadInput (uploader_input (Client_Open name))) (Some PipeReader).

Definition file_writing : File :=
  {| Name := name; closed := false; writing := true; reader := None;
     pipe := {| rerr := None; werr := None |} |}.

Definition file_closed : File :=
  {| Name := name; closed := true; writing := true; reader := None;
     pipe := {| rerr := None; werr := Some EOF |} |}.

(** The state after the last operation of the caller, the transport
    having read all the bytes, and the state once it has answered. *)
Definition write_close_closed : Machine :=
  {| file := file_closed; world := w0; todo := []; cur := None;
     results := oks bs ++ [CloseResult None];
     up := USending upload_request (concat bs) |}.

Definition write_close_final : Machine :=
  uploader_return c (concat bs) write_close_closed.

(** The states the program passes through when the transport reads the
    body to its end. *)
Inductive Inv : Machine -> Prop :=
| Inv_start : Inv write_close_init
| Inv_write (done : list bytes) (pre b : bytes) (later : list bytes) (u : uploader) :
    bs = done ++ (pre ++ b) :: later ->
    pre = [] \/ b <> [] ->
    u = USending upload_request (concat done ++ pre) \/
    (u = USpawned /\ done = [] /\ pre = []) ->
    Inv {| file := file_writing; world := w0;
           todo := map OpWrite later ++ [OpClose];
           cur := Some (b, length pre); results := oks done; up := u |}
| Inv_between (done later : list bytes) :
    bs = done ++ later ->
    done <> [] ->
    Inv {| file := file_writing; world := w0;
           todo := map OpWrite later ++ [OpClose];
           cur := None; results := oks done;
           up := USending upload_request (concat done) |}
| Inv_closed : Inv write_close_closed
| Inv_final : Inv write_close_final.

(** The states after the transport has answered, at the end of the body or
    before it: the uploader has ended, one upload is logged and its body is
    a prefix of the chunks, the whole of them unless fewer writes than
    there are chunks have returned their full count, and the caller has no
    read left. *)
Definition answered_inv (s : Machine) : Prop :=
  (exists e, up s = UDone e) /\
  writing (file s) = true /\
  forallb (fun o => match o with OpRead _ => false | _ => true end) (todo s) = true /\
  exists acc rest,
    log (world s) = log w0 ++ [(upload_request, acc)] /\ concat bs = acc ++ rest /\
    (rest = [] \/ (full_writes (results s) < length bs)%nat).

End WriteThenClose.

(** ** Requests of a listing and uploads in a log *)

Section ListingRequests.
Context `{Library}.

(** The request [ListN] makes when it holds [cursor]: the first page of
    [name] when the cursor is empty, the continuation otherwise. *)
Definition listing_request (c : Client) (name cursor : string) : Request * bytes :=
  let j := if String.eqb cursor ""
           then JObject [("path", JString (if String.eqb name "/" then "" else name));
                         ("recursive", JBool false);
                         ("include_media_info", JBool false);
                         ("include_deleted", JBool false)]
           else JObject [("cursor", JString cursor)] in
  (call_request c (if String.eqb cursor "" then "/files/list_folder"
                   else "/files/list_folder/continue") j,
   list_byte_of_string (json_Marshal j)).

(** The requests for a run of pages: each page is asked for with the cursor
    of the page before it. *)
Fixpoint listing_requests (c : Client) (name cursor : string)
    (pages : list ListFolderOutput) : list (Request * bytes) :=
  match pages with
  | [] => []
  | p :: ps => listing_request c name cursor :: listing_requests c name (Cursor p) ps
  end.

End ListingRequests.

(** The logged requests that went to the upload endpoint. *)
Definition is_upload (e : Request * bytes) : bool :=
  String.eqb (URL (fst e)) "https://content.dropboxapi.com/2/files/upload".

Definition uploads (lg : list (Request * bytes)) : nat :=
  length (List.filter is_upload lg).

Definition is_write (o : op) : bool :=
  match o with
  | OpWrite _ => true
  | _ => false
  end.

(** The transport answer [r] makes a listing call fail with [err]: the
    dispatcher rejects it, or the page does not decode. *)
Definition failing_answer `{Library} (r : transport_result) (err : error) : Prop :=
  Client_do_finish r = (None, 0, Some err) \/
  exists body l out, Client_do_finish r = (Some body, l, None) /\
                     decode_ListFolderOutput body = (out, Some err).

(** The transport answer [r] is an error response in plain text whose body
    cannot be read: the one answer on which the dispatcher returns neither a
    body nor an error. *)
Definition unreadable_text_error (r : transport_result) : Prop :=
  exists res, r = TResp res /\
              400 <= Res_StatusCode res /\
              Contains (Header_Get "Content-Type" (Res_Header res)) "text/plain" = true /\
              exists e, io_ReadAll (Res_Body res) = inl e.

(** The call panicked, on an answer of that one kind. *)
Definition panics_on_unreadable `{Library} {A} (o : outcome A) (w : World) : Prop :=
  o = Panic /\ exists r rest, script w = r :: rest /\ unreadable_text_error r.

(** What every state of a handle keeps, [n0] being the uploads logged
    before the handle was opened: the uploader exists exactly when the
    writing flag is set, what it sends is an upload, and one more upload is
    logged exactly when it has finished. *)
Definition upload_inv (n0 : nat) (s : Machine) : Prop :=
  (writing (file s) = false <-> up s = UIdle) /\
  (forall req acc, up s = USending req acc -> is_upload (req, acc) = true) /\
  uploads (log (world s))
  = (n0 + match up s with UDone _ => 1 | _ => 0 end)%nat.

(** A caller with no write left and none under way, and no uploader. *)
Definition no_write_inv (s : Machine) : Prop :=
  forallb (fun o => negb (is_write o)) (todo s) = true /\
  cur s = None /\ up s = UIdle.

(** What [io.ReadAll] makes of the error that ends a stream. *)
Definition ReadAll_error (e : error) : option error :=
  match e with
  | EOF => None
  | _ => Some e
  end.

(** * Properties *)

(** ** Path normalization and the wire *)

Section Wire.
Context `{Library}.

Lemma Client_do_memory (p : option bytes) (req : Request) (w : World) (sent : bytes) :
  Req_Body req = None /\ sent = [] \/ Req_Body req = Some (BytesReader sent) ->
  Client_do p req w =
  Ret (Client_do_finish (fst (round_trip req sent w)), snd (round_trip req sent w)).
Proof.
  intros Hb. unfold Client_do, bind, HTTPClient_Do, ret.
  destruct Hb as [[-> ->] | ->]; destruct (round_trip req _ w); reflexivity.
Qed.

Lemma Client_do_piped (acc : bytes) (req : Request) (w : World) :
  Req_Body req = Some PipeReader ->
  Client_do (Some acc) req w =
  Ret (Client_do_finish (fst (round_trip req acc w)), snd (round_trip req acc w)).
Proof.
  intros Hb. unfold Client_do, bind, HTTPClient_Do, ret. rewrite Hb.
  destruct (round_trip req acc w); reflexivity.
Qed.

Lemma round_trip_log (req : Request) (sent : bytes) (w : World) :
  log (snd (round_trip req sent w)) = log w ++ [(req, sent)].
Proof. unfold round_trip. destruct (script w); reflexivity. Qed.

Lemma round_trip_script (req : Request) (sent : bytes) (w : World) :
  script (snd (round_trip req sent w)) = tail (script w).
Proof. unfold round_trip. destruct (script w); reflexivity. Qed.

(** The three shapes of what the dispatcher returns: a body with no error,
    an error with no body, or neither, on the one answer of that kind. *)
Lemma Client_do_finish_cases (r : transport_result) :
  (exists body l, Client_do_finish r = (Some body, l, None)) \/
  (exists err, Client_do_finish r = (None, 0, Some err)) \/
  (Client_do_finish r = (None, 0, None) /\ unreadable_text_error r).
Proof.
  destruct r as [res | e]; simpl; [| eauto].
  destruct (Res_StatusCode res <? 400) eqn:Hc; [eauto |]. apply Z.ltb_ge in Hc.
  destruct (Contains _ "text/plain") eqn:Hk.
  - destruct (io_ReadAll (Res_Body res)) as [e | b] eqn:Hr; [| eauto].
    right; right. split; [done |]. exists res. eauto 10.
  - destruct (decode_Payload (Res_Body res)); eauto.
Qed.

Lemma unreadable_text_error_finish (r : transport_result) :
  unreadable_text_error r -> Client_do_finish r = (None, 0, None).
Proof.
  intros (res & -> & Hc & Hk & e & Hr). apply Z.ltb_ge in Hc.
  unfold Client_do_finish. by rewrite Hc, Hk, Hr.
Qed.

(** A control call on any world: one round trip with the request of the
    call, and the body and error the dispatcher makes of the answer. *)
Lemma Client_call_any (c : Client) (path : string) (j : json) (w : World) :
  let sent := list_byte_of_string (json_Marshal j) in
  let a := fst (round_trip (call_request c path j) sent w) in
  Client_call c path j w
  = Ret ((fst (fst (Client_do_finish a)), snd (Client_do_finish a)),
         snd (round_trip (call_request c path j) sent w)).
Proof.
  intros sent a. unfold Client_call, bind.
  rewrite (Client_do_memory _ _ w sent) by (right; reflexivity).
  fold a. by destruct (Client_do_finish a) as [[o l] e].
Qed.

Lemma Client_call_script (c : Client) (path : string) (j : json)
    (r : transport_result) (s : list transport_result) (lg : list (Request * bytes)) :
  Client_call c path j {| script := r :: s; log := lg |}
  = Ret ((fst (fst (Client_do_finish r)), snd (Client_do_finish r)),
         {| script := s;
            log := lg ++ [(call_request c path j, list_byte_of_string (json_Marshal j))] |}).
Proof. by rewrite Client_call_any. Qed.

(** When the answer is unreadable in the sense above, it is the first one
    of the script. *)
Lemma unreadable_first (req : Request) (sent : bytes) (w : World) :
  Client_do_finish (fst (round_trip req sent w)) = (None, 0, None) ->
  exists r rest, script w = r :: rest /\ unreadable_text_error r.
Proof.
  unfold round_trip. destruct (script w) as [| r rest]; simpl; [done |].
  intros Hf. exists r, rest. split; [done |].
  destruct (Client_do_finish_cases r) as [(b & l & Hr) | [(e & Hr) | [_ Hu]]];
    [congruence | congruence | done].
Qed.

(** A control call followed by [defer body.Close()] and a decoder: it
    returns after its one round trip, or panics on an unreadable answer. *)
Lemma call_then_decode {B} (c : Client) (path : string) (j : json) (w : World)
    (fail : error -> B) (dec : Body -> B) :
  let m := (r <- Client_call c path j ;;
            match r with
            | (_, Some err) => ret (fail err)
            | (None, None) => fun _ => Panic
            | (Some body, None) => ret (dec body)
            end) in
  (exists b w', m w = Ret (b, w') /\
      log w' = log w ++ [(call_request c path j, list_byte_of_string (json_Marshal j))]) \/
  panics_on_unreadable (m w) w.
Proof.
  intros m. unfold m, bind. rewrite Client_call_any.
  pose proof (round_trip_log (call_request c path j)
                (list_byte_of_string (json_Marshal j)) w) as Hlog.
  pose proof (unreadable_first (call_request c path j)
                (list_byte_of_string (json_Marshal j)) w) as Hun.
  destruct (Client_do_finish (fst (round_trip _ _ w))) as [[[body |] l] [e |]] eqn:Hf;
    simpl; try (left; eexists _, _; split; [reflexivity | exact Hlog]).
  right. unfold panics_on_unreadable. split; [reflexivity |].
  destruct (Client_do_finish_cases (fst (round_trip (call_request c path j)
              (list_byte_of_string (json_Marshal j)) w)))
    as [(b & l' & Hr) | [(e & Hr) | [Hr _]]]; try congruence.
  apply Hun. congruence.
Qed.

Lemma download_request_arg (c : Client) (path : string) (j : json) (r : option Reader) :
  Header_Get "Dropbox-API-Arg" (Req_Header (download_request c path j r)) = json_Marshal j.
Proof.
  unfold download_request, Header_Get.
  destruct r; simpl; unfold Header_Set.
  - rewrite lookup_insert_ne by done. by rewrite lookup_insert_eq.
  - by rewrite lookup_insert_eq.
Qed.

(** C4.  List-folder puts the empty string on the wire for the path "/"
    and every other path as it is; get-metadata, list-folder-continue,
    download and upload send the path (or cursor) of their input
    unchanged.  The wire is the request the transport logs: the JSON body
    of a control call, the [Dropbox-API-Arg] header of a content call.
    Each operation makes one round trip and returns, except that those
    which close the body on the way out panic on an error answer in plain
    text whose body cannot be read. *)
Theorem path_normalization_listing_only (c : Client) (w : World) :
  (forall in_ : ListFolderInput,
      let j := JObject [("path", JString (if String.eqb (lf_Path in_) "/" then ""
                                          else lf_Path in_));
                        ("recursive", JBool (lf_Recursive in_));
                        ("include_media_info", JBool (lf_IncludeMediaInfo in_));
                        ("include_deleted", JBool (lf_IncludeDeleted in_))] in
      (exists r w',
          Files_ListFolder c in_ w = Ret (r, w') /\
          log w' = log w ++ [(call_request c "/files/list_folder" j,
                              list_byte_of_string (json_Marshal j))]) \/
      panics_on_unreadable (Files_ListFolder c in_ w) w) /\
  (forall in_ : GetMetadataInput,
      let j := JObject [("path", JString (gm_Path in_));
                        ("include_media_info", JBool (gm_IncludeMediaInfo in_))] in
      (exists r w',
          Files_GetMetadata c in_ w = Ret (r, w') /\
          log w' = log w ++ [(call_request c "/files/get_metadata" j,
                              list_byte_of_string (json_Marshal j))]) \/
      panics_on_unreadable (Files_GetMetadata c in_ w) w) /\
  (forall in_ : ListFolderContinueInput,
      let j := JObject [("cursor", JString (lc_Cursor in_))] in
      (exists r w',
          Files_ListFolderContinue c in_ w = Ret (r, w') /\
          log w' = log w ++ [(call_request c "/files/list_folder/continue" j,
                              list_byte_of_string (json_Marshal j))]) \/
      panics_on_unreadable (Files_ListFolderContinue c in_ w) w) /\
  (forall in_ : DownloadInput, exists r w' req,
      Files_Download c in_ w = Ret (r, w') /\
      log w' = log w ++ [(req, [])] /\
      Header_Get "Dropbox-API-Arg" (Req_Header req) =
        json_Marshal (JObject [("path", JString (dl_Path in_))])) /\
  (forall (path : string) (mode : WriteMode) (autorename mute : bool)
          (modified : string) (b : option bytes),
      let in_ := {| up_Path := path; up_Mode := mode; up_AutoRename := autorename;
                    up_Mute := mute; up_ClientModified := modified;
                    up_Reader := BytesReader <$> b |} in
      (exists r w' req,
          Files_Upload None c in_ w = Ret (r, w') /\
          log w' = log w ++ [(req, default [] b)] /\
          Header_Get "Dropbox-API-Arg" (Req_Header req) =
            json_Marshal
              (JObject ([("path", JString path);
                         ("mode", JString (WriteMode_string mode));
                         ("autorename", JBool autorename);
                         ("mute", JBool mute)] ++
                        (if String.eqb modified "" then []
                         else [("client_modified", JString modified)])))) \/
      panics_on_unreadable (Files_Upload None c in_ w) w).
Proof.
  split; [| split; [| split; [| split]]].
  - intros in_ j.
    apply (call_then_decode c "/files/list_folder" j w
             (fun err => (_, (None, Some err))) (fun body => (_, decode_ListFolderOutput body))).
  - intros in_ j.
    apply (call_then_decode c "/files/get_metadata" j w
             (fun err => (None, Some err)) decode_Metadata).
  - intros in_ j.
    apply (call_then_decode c "/files/list_folder/continue" j w
             (fun err => (None, Some err)) decode_ListFolderOutput).
  - intros in_. unfold Files_Download, Client_download, bind.
    rewrite (Client_do_memory _ _ w []) by (left; split; reflexivity).
    pose proof (round_trip_log
                  (download_request c "/files/download" (marshal_DownloadInput in_) None)
                  [] w) as Hlog.
    destruct (Client_do_finish _) as [[body l] [e |]]; eexists _, _, _;
      (split; [reflexivity | split; [exact Hlog |]]);
      apply (download_request_arg c "/files/download" (marshal_DownloadInput in_) None).
  - intros path mode autorename mute modified b in_.
    unfold Files_Upload, Client_download, bind.
    set (req := download_request c "/files/upload" (marshal_UploadInput in_) (up_Reader in_)).
    rewrite (Client_do_memory _ req w (default [] b))
      by (unfold req, download_request; destruct b; simpl; [right | left]; auto).
    pose proof (round_trip_log req (default [] b) w) as Hlog.
    pose proof (unreadable_first req (default [] b) w) as Hun.
    destruct (Client_do_finish_cases (fst (round_trip req (default [] b) w)))
      as [(body & l & Hr) | [(e & Hr) | [Hr _]]]; rewrite Hr.
    + left. eexists _, _, req. split; [reflexivity | split; [exact Hlog |]].
      apply (download_request_arg c "/files/upload" (marshal_UploadInput in_)).
    + left. eexists _, _, req. split; [reflexivity | split; [exact Hlog |]].
      apply (download_request_arg c "/files/upload" (marshal_UploadInput in_)).
    + right. unfold panics_on_unreadable. split; [reflexivity |]. by apply Hun.
Qed.

(** C9.  List-folder writes the normalized path into the record the
    caller passed: when the call returns, the record's path is "" where it
    was "/" and unchanged otherwise, and the three flags are as they were.
    The call returns on every answer but an error in plain text whose body
    cannot be read, on which it panics. *)
Theorem ListFolder_mutates_input_path (c : Client) (in_ : ListFolderInput) (w : World) :
  (exists in' r w',
      Files_ListFolder c in_ w = Ret ((in', r), w') /\
      lf_Path in' = normalizePath (lf_Path in_) /\
      lf_Path in' = (if String.eqb (lf_Path in_) "/" then "" else lf_Path in_) /\
      lf_Recursive in' = lf_Recursive in_ /\
      lf_IncludeMediaInfo in' = lf_IncludeMediaInfo in_ /\
      lf_IncludeDeleted in' = lf_IncludeDeleted in_) \/
  panics_on_unreadable (Files_ListFolder c in_ w) w.
Proof.
  unfold Files_ListFolder, bind. rewrite Client_call_any.
  match goal with
  | |- context [round_trip ?q ?b w] =>
      pose proof (unreadable_first q b w) as Hun;
      destruct (Client_do_finish_cases (fst (round_trip q b w)))
        as [(body & l & Hr) | [(e & Hr) | [Hr _]]]; rewrite Hr in *
  end; simpl.
  - left. eexists _, _, _. split; [reflexivity |]. simpl. auto.
  - left. eexists _, _, _. split; [reflexivity |]. simpl. auto.
  - right. unfold panics_on_unreadable. split; [reflexivity |]. by apply Hun.
Qed.

(** C10.  Stream-download and get-stream hand back what the transport
    answered, whatever the status: a response comes back as it is with no
    error, and the only error is the transport's own. *)
Theorem Stream_returns_raw_response (c : Client) (name : string)
    (reqFilter : option (gmap string (list string) -> gmap string (list string)))
    (r : transport_result) (rest : list transport_result)
    (lg : list (Request * bytes)) :
  let req := pipe_request c "/files/download" (JObject [("path", JString name)]) reqFilter in
  let w' := {| script := rest; log := lg ++ [(req, [])] |} in
  Files_Stream c {| dl_Path := name |} reqFilter {| script := r :: rest; log := lg |}
    = Ret (r, w') /\
  Client_GetStream c name reqFilter {| script := r :: rest; log := lg |} = Ret (r, w') /\
  Req_Body req = None.
Proof.
  unfold Client_GetStream, Files_Stream, Client_pipe, HTTPClient_Do, pipe_request.
  destruct reqFilter; simpl; auto.
Qed.

End Wire.

(** ** Error decoding and translation *)

Section Errors.
Context `{Library}.

(** C7, as the code has it.  For a response with status below 400 the
    dispatcher returns the body, untouched, and the content length.  For
    a status of 400 or more: when the content type contains "text/plain"
    and the body can be read it returns a service error with the status
    text, the status code and the body text as summary; for any other
    content type, when the body decodes as JSON, a service error with the
    status text, the status code and the decoded payload, and when it
    does not decode, the decode error itself. *)
Theorem do_error_decoding (req : Request) (sent : bytes) (res : Response)
    (rest : list transport_result) (lg : list (Request * bytes)) :
  Req_Body req = None /\ sent = [] \/ Req_Body req = Some (BytesReader sent) ->
  let w := {| script := TResp res :: rest; log := lg |} in
  let w' := {| script := rest; log := lg ++ [(req, sent)] |} in
  let code := Res_StatusCode res in
  let kind := Header_Get "Content-Type" (Res_Header res) in
  (code < 400 ->
   Client_do None req w = Ret ((Some (Res_Body res), ContentLength res, None), w')) /\
  (400 <= code -> Contains kind "text/plain" = true ->
   forall b, io_ReadAll (Res_Body res) = inr b ->
   exists e, Client_do None req w = Ret ((None, 0, Some (ServiceError e)), w') /\
     Status e = http_StatusText code /\ StatusCode e = code /\
     Summary e = string_of_list_byte b /\ Payload e = None) /\
  (400 <= code -> Contains kind "text/plain" = false ->
   forall j, decode_Payload (Res_Body res) = inr j ->
   exists e, Client_do None req w = Ret ((None, 0, Some (ServiceError e)), w') /\
     Status e = http_StatusText code /\ StatusCode e = code /\
     Payload e = Some j) /\
  (400 <= code -> Contains kind "text/plain" = false ->
   forall err, decode_Payload (Res_Body res) = inl err ->
   Client_do None req w = Ret ((None, 0, Some err), w')).
Proof.
  intros Hb w w' code kind.
  rewrite (Client_do_memory None req w sent Hb).
  unfold Client_do_finish, round_trip; simpl. fold code kind.
  repeat split.
  - intros Hc. apply Z.ltb_lt in Hc. by rewrite Hc.
  - intros Hc Hk b Hr. apply Z.ltb_ge in Hc. rewrite Hc, Hk, Hr.
    eexists. split; [reflexivity |]. simpl. auto.
  - intros Hc Hk j Hd. apply Z.ltb_ge in Hc. rewrite Hc, Hk, Hd.
    eexists. split; [reflexivity |]. simpl. auto.
  - intros Hc Hk err Hd. apply Z.ltb_ge in Hc. by rewrite Hc, Hk, Hd.
Qed.

(** C3.  When the download of the first read fails with an error whose
    text begins with "path/not_found/", the read returns the path error
    open/<name>/ENOENT in its place; any other error is returned as it
    is.  No byte is read and the handle is left as it was. *)
Theorem Read_translates_not_found (c : Client) (k : nat) (f : File) (w w' : World)
    (out : option (option Body * Z)) (err : error) :
  reader f = None ->
  Files_Download c {| dl_Path := Name f |} w = Ret ((out, Some err), w') ->
  File_Read c k f w =
  Ret (([], Some (if HasPrefix (error_Error err) "path/not_found/"
                  then PathError "open" (Name f) ENOENT
                  else err)), f, w').
Proof.
  intros Hr Hd. unfold File_Read, File_download, bind. rewrite Hr, Hd.
  destruct (HasPrefix (error_Error err) "path/not_found/"), out as [[body l] |];
    reflexivity.
Qed.

End Errors.

(** ** Closing a handle *)

(** C8.  Close on a handle whose closed flag is set returns the path error
    close/<name>/EINVAL and leaves every field of the handle as it was. *)
Theorem Close_twice_invalid (f : File) :
  closed f = true ->
  File_Close f = (Some (PathError "close" (Name f) EINVAL), f).
Proof. intros Hc. unfold File_Close. by rewrite Hc. Qed.

(** ** Listing up to n *)

Section ListingProperties.
Context `{Library}.

Lemma listing_call_page (c : Client) (name cursor : string) (r : transport_result)
    (p : ListFolderOutput) (s : list transport_result) (lg : list (Request * bytes)) :
  page_answer r p ->
  exists e,
    (if String.eqb cursor "" then
       x <- Files_ListFolder c {| lf_Path := name; lf_Recursive := false;
                                  lf_IncludeMediaInfo := false;
                                  lf_IncludeDeleted := false |} ;;
       ret (snd x)
     else Files_ListFolderContinue c {| lc_Cursor := cursor |})
      {| script := r :: s; log := lg |}
    = Ret ((Some p, None), {| script := s; log := lg ++ [e] |}).
Proof.
  intros (res & -> & Hc & Hd). apply Z.ltb_lt in Hc.
  destruct (String.eqb cursor "").
  - unfold bind, Files_ListFolder, bind. rewrite Client_call_script.
    unfold Client_do_finish. rewrite Hc. simpl. rewrite Hd. eexists. reflexivity.
  - unfold Files_ListFolderContinue, bind. rewrite Client_call_script.
    unfold Client_do_finish. rewrite Hc. simpl. rewrite Hd. eexists. reflexivity.
Qed.

Lemma listing_call_any (c : Client) (name cursor : string) (w : World) :
  let call :=
    (if String.eqb cursor "" then
       x <- Files_ListFolder c {| lf_Path := name; lf_Recursive := false;
                                  lf_IncludeMediaInfo := false;
                                  lf_IncludeDeleted := false |} ;;
       ret (snd x)
     else Files_ListFolderContinue c {| lc_Cursor := cursor |}) in
  call w = Panic \/
  exists r w',
    call w = Ret (r, w') /\
    script w' = tail (script w) /\
    (script w = [] -> exists err, r = (None, Some err)).
Proof.
  intros call. unfold call.
  destruct (String.eqb cursor "");
    unfold Files_ListFolder, Files_ListFolderContinue, bind;
    rewrite Client_call_any;
    match goal with
    | |- context [round_trip ?q ?b w] =>
        pose proof (round_trip_script q b w) as Hs;
        assert (He : script w = [] ->
                     exists err, Client_do_finish (fst (round_trip q b w))
                                 = (None, 0, Some err))
          by (unfold round_trip; intros ->; simpl; eauto);
        destruct (Client_do_finish (fst (round_trip q b w))) as [[[body |] l] [e |]]
    end; simpl; try (by left);
    right; eexists _, _; (split; [reflexivity |]); (split; [exact Hs |]);
    intros Hw; destruct (He Hw) as [err [=]]; eauto.
Qed.

(** The loop never runs out of fuel when given more than there are answers
    left: list-up-to-n returns or panics, it does not spin. *)
Lemma ListN_loop_fuel (c : Client) (name : string) (n : Z) (fuel : nat) :
  forall (cursor : string) (lst : list FileInfo) (w : World),
    (length (script w) < fuel)%nat ->
    ListN_loop fuel c name n cursor lst w <> Hang.
Proof.
  induction fuel as [| fuel IH]; intros cursor lst w Hf; [lia |].
  cbn [ListN_loop]. unfold bind at 1.
  destruct (listing_call_any c name cursor w) as [Hp | (r & w' & Hr & Hs & He)];
    [by rewrite Hp |].
  rewrite Hr.
  destruct r as [[out |] [err |]]; try done.
  destruct ((0 <=? n) && _); [done |].
  destruct (negb (HasMore out)); [done |].
  apply IH. rewrite Hs. destruct (script w) as [| a sc].
  - destruct (He eq_refl) as [err [=]].
  - simpl in *. lia.
Qed.

Lemma Client_ListN_returns (c : Client) (name : string) (n : Z) (w : World) :
  Client_ListN c name n w <> Hang.
Proof. unfold Client_ListN. apply ListN_loop_fuel. lia. Qed.

Lemma listing_tail (p : ListFolderOutput) (ps : list ListFolderOutput) :
  listing (p :: ps) ->
  (HasMore p = false /\ ps = []) \/ (HasMore p = true /\ ps <> [] /\ listing ps).
Proof.
  destruct ps as [| q ps]; simpl.
  - intros ->. by left.
  - intros [Hp Hq]. right. by repeat split.
Qed.

Lemma entries_cons (p : ListFolderOutput) (ps : list ListFolderOutput) :
  entries (p :: ps) = map Build_FileInfo (Entries p) ++ entries ps.
Proof. reflexivity. Qed.

Lemma entries_one (p : ListFolderOutput) :
  entries [p] = map Build_FileInfo (Entries p).
Proof. unfold entries. simpl. apply app_nil_r. Qed.

Lemma entries_app (ps qs : list ListFolderOutput) :
  entries (ps ++ qs) = entries ps ++ entries qs.
Proof. unfold entries. by rewrite map_app, concat_app. Qed.

(** The loop against a scripted listing: it fetches a prefix [used] of the
    pages, returns what the code after the loop makes of their entries
    (cut to the cap, when there is one), and leaves the answers of the
    other pages with the transport. *)
Lemma ListN_loop_listing (c : Client) (name : string) (n : Z)
    (rest : list transport_result) :
  forall (rs : list transport_result) (pages : list ListFolderOutput),
    Forall2 page_answer rs pages ->
    listing pages ->
    forall (fuel : nat) (cursor : string) (lst : list FileInfo)
           (lg : list (Request * bytes)),
      (length rs < fuel)%nat ->
      n = -1 \/ Z.of_nat (length lst) < n ->
      exists used unused rs2 lg',
        pages = used ++ unused /\ used <> [] /\
        ListN_loop fuel c name n cursor lst {| script := rs ++ rest; log := lg |}
        = Ret (ListN_end n (if 0 <=? n then take (Z.to_nat n) (lst ++ entries used)
                            else lst ++ entries used),
               {| script := rs2 ++ rest; log := lg ++ lg' |}) /\
        Forall2 page_answer rs2 unused /\
        length lg' = length used /\
        (unused <> [] -> 0 <= n <= Z.of_nat (length (lst ++ entries used))) /\
        (0 <= n -> Z.of_nat (length (lst ++ entries (removelast used))) < n).
Proof.
  induction 1 as [| r p rs ps Hrp Hall IH]; intros Hl fuel cursor lst lg Hfuel Hn.
  { destruct Hl. }
  destruct fuel as [| fuel]; [simpl in Hfuel; lia |].
  destruct (listing_call_page c name cursor r p (rs ++ rest) lg Hrp) as [e He].
  cbn [ListN_loop]. unfold bind at 1.
  change ((r :: rs) ++ rest) with (r :: (rs ++ rest)). rewrite He.
  set (lst' := lst ++ map Build_FileInfo (Entries p)).
  destruct ((0 <=? n) && (n <=? Z.of_nat (length lst'))) eqn:Hcap.
  - (* the cap is reached *)
    apply andb_true_iff in Hcap as [H0 Hle].
    exists [p], ps, rs, [e]. rewrite entries_one. fold lst'.
    rewrite H0. apply Z.leb_le in H0, Hle.
    repeat split; auto; try done.
    simpl. rewrite app_nil_r. lia.
  - destruct (listing_tail p ps Hl) as [[Hm ->] | (Hm & Hne & Hps)]; rewrite Hm; simpl.
    + (* the last page *)
      inversion Hall; subst.
      exists [p], [], [], [e]. rewrite entries_one. fold lst'.
      repeat split; auto; try done.
      * unfold ret. do 2 f_equal.
        destruct (0 <=? n) eqn:H0; [| reflexivity].
        simpl in Hcap. apply Z.leb_gt in Hcap.
        rewrite take_ge by lia. reflexivity.
      * intros H0. simpl. rewrite app_nil_r. lia.
    + (* more pages follow *)
      assert (Hn' : n = -1 \/ Z.of_nat (length lst') < n).
      { destruct Hn as [-> | Hn]; [by left | right].
        apply andb_false_iff in Hcap as [Hc | Hc].
        - apply Z.leb_gt in Hc. lia.
        - by apply Z.leb_gt in Hc. }
      destruct (IH Hps fuel (Cursor p) lst' (lg ++ [e])) as
        (used & unused & rs2 & lg' & Hpages & Hused & Hrun & Hrs2 & Hlen & Hcapd & Hmin);
        [simpl in Hfuel; lia | exact Hn' |].
      exists (p :: used), unused, rs2, (e :: lg').
      rewrite entries_cons, app_assoc. fold lst'.
      repeat split; auto; try done.
      * by rewrite Hpages.
      * rewrite Hrun. by rewrite <- app_assoc.
      * simpl. by rewrite Hlen.
      * by apply Hcapd.
      * by apply Hcapd.
      * intros H0. destruct used as [| q used]; [done |].
        change (removelast (p :: q :: used)) with (p :: removelast (q :: used)).
        rewrite entries_cons, app_assoc. fold lst'. by apply Hmin.
Qed.

(** C5.  With a cap n > 0, against a listing whose pages the transport
    answers in order, list-up-to-n returns the first n of all the
    entries in the order of the pages (all of them when there are fewer),
    so min(n, total) entries; the error is end-of-stream when there is
    no entry at all.  It fetches a prefix of the pages, one round trip
    each: a page is left unfetched only when the cap was reached before
    it, and the last page fetched was still needed. *)
Theorem ListN_returns_capped_prefix (c : Client) (name : string) (n : Z)
    (rs rest : list transport_result) (pages : list ListFolderOutput)
    (lg : list (Request * bytes)) :
  0 < n ->
  Forall2 page_answer rs pages ->
  listing pages ->
  exists used unused rs2 lg',
    pages = used ++ unused /\
    Client_ListN c name n {| script := rs ++ rest; log := lg |}
    = Ret ((take (Z.to_nat n) (entries pages),
            match entries pages with [] => Some EOF | _ => None end),
           {| script := rs2 ++ rest; log := lg ++ lg' |}) /\
    Z.of_nat (length (take (Z.to_nat n) (entries pages)))
      = Z.min n (Z.of_nat (length (entries pages))) /\
    Forall2 page_answer rs2 unused /\
    length lg' = length used /\
    (unused <> [] -> n <= Z.of_nat (length (entries used))) /\
    Z.of_nat (length (entries (removelast used))) < n.
Proof.
  intros Hn Hrs Hl.
  destruct (ListN_loop_listing c name n rest rs pages Hrs Hl
              (S (length (rs ++ rest))) "" [] lg) as
    (used & unused & rs2 & lg' & Hpages & Hused & Hrun & Hrs2 & Hlen & Hcapd & Hmin).
  { rewrite length_app. lia. }
  { right. simpl. lia. }
  exists used, unused, rs2, lg'.
  assert (Htake : take (Z.to_nat n) (entries used) = take (Z.to_nat n) (entries pages)).
  { rewrite Hpages, entries_app. destruct unused as [| q unused].
    - by rewrite app_nil_r.
    - rewrite take_app_le; [done |]. simpl in Hcapd.
      assert (0 <= n <= Z.of_nat (length (entries used))) by (by apply Hcapd). lia. }
  repeat split; auto.
  - unfold Client_ListN. destruct (n <=? 0) eqn:Hn0; [apply Z.leb_le in Hn0; lia |].
    simpl in *. rewrite Hrun.
    assert (H0 : (0 <=? n) = true) by (apply Z.leb_le; lia). rewrite H0.
    rewrite Htake. unfold ListN_end. rewrite H0. simpl.
    do 2 f_equal.
    destruct (entries pages) as [| x xs] eqn:He.
    + by rewrite take_nil.
    + destruct (Z.to_nat n) as [| m] eqn:Hm; [lia |]. reflexivity.
  - rewrite length_take. lia.
  - intros Hu. simpl in Hcapd. by apply Hcapd.
  - simpl in Hmin. apply Hmin. lia.
Qed.

(** C6, as the code has it.  With a positive cap, a listing that ends
    without a single entry makes list-up-to-n fail with end-of-stream:
    the result is the empty sequence with [io.EOF], after every page was
    fetched. *)
Theorem ListN_empty_listing_is_EOF (c : Client) (name : string) (n : Z)
    (rs rest : list transport_result) (pages : list ListFolderOutput)
    (lg : list (Request * bytes)) :
  0 < n ->
  Forall2 page_answer rs pages ->
  listing pages ->
  entries pages = [] ->
  exists lg',
    Client_ListN c name n {| script := rs ++ rest; log := lg |}
    = Ret (([], Some EOF), {| script := rest; log := lg ++ lg' |}) /\
    length lg' = length pages.
Proof.
  intros Hn Hrs Hl He.
  destruct (ListN_loop_listing c name n rest rs pages Hrs Hl
              (S (length (rs ++ rest))) "" [] lg) as
    (used & unused & rs2 & lg' & Hpages & Hused & Hrun & Hrs2 & Hlen & Hcapd & Hmin).
  { rewrite length_app. lia. }
  { right. simpl. lia. }
  assert (Hue : entries used = []).
  { rewrite Hpages, entries_app in He. by apply app_eq_nil in He as [? _]. }
  assert (unused = []) as ->.
  { destruct unused as [| q unused]; [done |].
    assert (0 <= n <= Z.of_nat (length ([] ++ entries used))) by (by apply Hcapd).
    rewrite Hue in *. simpl in *. lia. }
  inversion Hrs2; subst. rewrite app_nil_r in *.
  exists lg'. split; [| done].
  unfold Client_ListN. destruct (n <=? 0) eqn:Hn0; [apply Z.leb_le in Hn0; lia |].
  simpl in *. rewrite Hrun, Hue.
  assert (H0 : (0 <=? n) = true) by (apply Z.leb_le; lia).
  rewrite H0, take_nil. unfold ListN_end. by rewrite H0.
Qed.

End ListingProperties.

(** ** The handle at work *)

Section MachineProperties.
Context `{Library}.

(** What the uploader's return changes: the transport logs the upload
    request with the bytes it has read, the uploader has ended, and of the
    handle only the read end of the pipe may differ. *)
Lemma uploader_return_fields (c : Client) (acc : bytes) (s : Machine) :
  let s' := uploader_return c acc s in
  let req := download_request c "/files/upload"
               (marshal_UploadInput (uploader_input (file s))) (Some PipeReader) in
  world s' = snd (round_trip req acc (world s)) /\
  todo s' = todo s /\ cur s' = cur s /\ results s' = results s /\
  (exists e, up s' = UDone e) /\
  Name (file s') = Name (file s) /\ closed (file s') = closed (file s) /\
  writing (file s') = writing (file s) /\ reader (file s') = reader (file s) /\
  werr (pipe (file s')) = werr (pipe (file s)).
Proof.
  intros s' req. unfold s', uploader_return, Files_Upload, Client_download, bind.
  change (up_Reader (uploader_input (file s))) with (Some PipeReader).
  fold req. rewrite (Client_do_piped acc req (world s)) by reflexivity.
  unfold HTTPClient_Do. change (Req_Body req) with (Some PipeReader).
  destruct (round_trip req acc (world s)) as [r w] eqn:Hrt. simpl.
  destruct (Client_do_finish r) as [[[body |] l] [e |]]; simpl;
    try destruct (decode_Metadata body) as [o e']; simpl; eauto 15.
Qed.



(** A state whose caller has finished and whose uploader has ended has no
    move. *)
Lemma ended_stuck (c : Client) (s : Machine) :
  todo s = [] -> cur s = None -> (exists e, up s = UDone e) -> stuck c s.
Proof.
  intros Ht Hc [e He] m. unfold step. destruct (crashed s); [done |].
  destruct m; unfold step_caller, step_uploader, step_transfer, step_answer;
    by rewrite ?Hc, ?Ht, ?He.
Qed.

End MachineProperties.

Section WriteThenCloseProperties.
Context `{Library}.
Variables (c : Client) (name : string) (bs : list bytes) (w0 : World).
Hypothesis bs_nonempty : bs <> [].

Local Abbreviation Inv := (Inv c name bs w0).
Local Abbreviation req := (upload_request c name).
Local Abbreviation final := (write_close_final c name bs w0).

Lemma oks_snoc (done : list bytes) (b : bytes) :
  oks (done ++ [b]) = oks done ++ [WriteResult (length b) None].
Proof. unfold oks. by rewrite map_app. Qed.

Lemma concat_snoc (done : list bytes) (b : bytes) :
  concat (done ++ [b]) = concat done ++ b.
Proof. rewrite concat_app. simpl. by rewrite app_nil_r. Qed.

(** The states of the program are closed under every move but an early
    answer of the transport. *)
Lemma Inv_step (m : move) (s s' : Machine) :
  is_early m = false -> Inv s -> step c m s = Some s' -> Inv s'.
Proof.
  intros Hm Hinv Hstep.
  destruct Hinv as [| done pre b later u Hbs Hpre Hu | done later Hbs Hdone | |].
  - (* start *)
    destruct m as [| | k |]; unfold step in Hstep; simpl in Hstep; try done.
    unfold step_caller in Hstep; simpl in Hstep.
    destruct bs as [| b later] eqn:Ebs; [done |]. simpl in Hstep.
    injection Hstep as <-.
    apply (Inv_write c name (b :: later) w0 [] [] b later USpawned); auto.
  - (* inside a write *)
    destruct Hu as [-> | (-> & -> & ->)];
      destruct m as [| | k |]; unfold step in Hstep; simpl in Hstep; try done.
    + unfold step_transfer in Hstep; simpl in Hstep.
      destruct (0 <? k)%nat eqn:Hk; [| done]. apply Nat.ltb_lt in Hk.
      simpl in Hstep.
      assert (Hnr : (k `min` length b <= length b)%nat) by lia.
      destruct (drop (k `min` length b) b) as [| x b'] eqn:Hd; injection Hstep as <-.
      * assert (Hl : length (drop (k `min` length b) b) = 0%nat) by (by rewrite Hd).
        rewrite length_drop in Hl.
        rewrite (take_ge b) by lia.
        replace (length pre + k `min` length b)%nat with (length (pre ++ b))
          by (rewrite length_app; lia).
        rewrite <- oks_snoc, <- app_assoc, <- concat_snoc.
        apply Inv_between; [by rewrite <- app_assoc | by destruct done].
      * replace (length pre + k `min` length b)%nat
          with (length (pre ++ take (k `min` length b) b))
          by (rewrite length_app, length_take; lia).
        rewrite <- app_assoc, <- Hd.
        apply Inv_write.
        -- by rewrite <- app_assoc, take_drop.
        -- right. by rewrite Hd.
        -- left. by rewrite app_assoc.
    + unfold step_uploader in Hstep; simpl in Hstep.
      injection Hstep as <-.
      apply (Inv_write c name bs w0 [] [] b later); auto.
  - (* between two operations *)
    destruct m as [| | k |]; unfold step in Hstep; simpl in Hstep; try done.
    unfold step_caller in Hstep; simpl in Hstep.
    destruct later as [| b later]; simpl in Hstep; injection Hstep as <-.
    + rewrite app_nil_r in Hbs. subst done. apply Inv_closed.
    + apply (Inv_write c name bs w0 done [] b later); auto.
      left. by rewrite app_nil_r.
  - (* closed, the transport at the end of the body *)
    destruct m as [| | k |]; unfold step in Hstep; simpl in Hstep; try done.
    unfold step_uploader in Hstep; simpl in Hstep.
    injection Hstep as <-. apply Inv_final.
  - (* final *)
    destruct (uploader_return_fields c (concat bs) (write_close_closed c name bs w0))
      as (_ & Ht & Hc & _ & He & _).
    by rewrite (ended_stuck c final Ht Hc He m) in Hstep.
Qed.

Lemma Inv_run (ms : list move) :
  forall s s', draining ms = true -> Inv s -> run c ms s = Some s' -> Inv s'.
Proof.
  induction ms as [| m ms IH]; intros s s' Hd Hinv; simpl.
  - by intros [= <-].
  - simpl in Hd. apply andb_true_iff in Hd as [Hm Hd]. apply negb_true_iff in Hm.
    destruct (step c m s) as [s1 |] eqn:Hs; [| done].
    apply IH; [done |]. by apply (Inv_step m s).
Qed.




Lemma final_results : results final = oks bs ++ [CloseResult None].
Proof.
  by destruct (uploader_return_fields c (concat bs) (write_close_closed c name bs w0))
    as (_ & _ & _ & Hr & _).
Qed.

Lemma Inv_log (s : Machine) :
  Inv s -> log (world s) = log w0 \/ s = final.
Proof. intros []; auto. Qed.




End WriteThenCloseProperties.

Section AnyTransport.
Context `{Library}.
Variables (c : Client) (name : string) (bs : list bytes) (w0 : World).
Hypothesis bs_nonempty : bs <> [].

Local Abbreviation Inv := (Inv c name bs w0).
Local Abbreviation Ans := (answered_inv c name bs w0).
Local Abbreviation final := (write_close_final c name bs w0).

Lemma File_Close_writing (f : File) : writing (snd (File_Close f)) = writing f.
Proof.
  unfold File_Close. destruct (closed f); [done |]. simpl.
  destruct (writing f), (reader f); reflexivity.
Qed.

Lemma full_writes_snoc (rs : list result) (r : result) :
  full_writes (rs ++ [r]) = (full_writes rs + if is_full_write r then 1 else 0)%nat.
Proof.
  unfold full_writes. rewrite List.filter_app, length_app. simpl.
  by destruct (is_full_write r).
Qed.

Lemma full_writes_oks (l : list bytes) : full_writes (oks l) = length l.
Proof.
  unfold full_writes, oks. induction l as [| b l IH]; [done |]. simpl. by rewrite IH.
Qed.

Lemma no_read_writes (later : list bytes) :
  forallb (fun o => match o with OpRead _ => false | _ => true end)
    (map OpWrite later ++ [OpClose]) = true.
Proof. induction later as [| b later IH]; [done | exact IH]. Qed.

(** The transport has answered a state of the program that had sent
    [acc]. *)
Lemma answered_inv_return (acc rest : bytes) (f : File) (later : list op)
    (cu : option (bytes * nat)) (rs : list result) (u : uploader) :
  Name f = name -> writing f = true ->
  forallb (fun o => match o with OpRead _ => false | _ => true end) later = true ->
  concat bs = acc ++ rest ->
  rest = [] \/ (full_writes rs < length bs)%nat ->
  Ans
    (uploader_return c acc {| file := f; world := w0; todo := later; cur := cu;
                              results := rs; up := u |}).
Proof.
  intros Hn Hwr Hl Hcat Hfull.
  destruct (uploader_return_fields c acc {| file := f; world := w0; todo := later;
                                            cur := cu; results := rs; up := u |})
    as (Hwd & Ht & _ & Hrs & He & _ & _ & Hw & _).
  unfold answered_inv. rewrite Hwd, Ht, Hw, Hrs, round_trip_log.
  simpl. subst name.
  split; [done |]. split; [done |]. split; [done |]. by exists acc, rest.
Qed.

(** Once the transport has answered, only the caller moves; it reads
    nothing, and no write of its returns without an error. *)
Lemma answered_inv_step (m : move) (s s' : Machine) :
  Ans s -> step c m s = Some s' -> Ans s'.
Proof.
  intros ((e & He) & Hwr & Ht & (acc & rest & Hlog & Hcat & Hfull)).
  unfold step. destruct (crashed s); [done |].
  destruct m as [| | k |].
  - unfold step_caller. destruct (cur s) as [[b n] |].
    + destruct (Pipe_done (pipe (file s))); intros [= <-].
      unfold answered_inv; simpl.
      rewrite full_writes_snoc. simpl. rewrite Nat.add_0_r. eauto 10.
    + destruct (todo s) as [| [k | b |] later] eqn:Htodo; simpl in Ht; try done.
      * unfold File_Write_enter. rewrite Hwr. simpl. intros [= <-].
        unfold answered_inv; simpl. eauto 10.
      * pose proof (File_Close_writing (file s)) as Hcl.
        destruct (File_Close (file s)) as [err f']. simpl in Hcl. intros [= <-].
        unfold answered_inv; simpl.
        rewrite Hcl, full_writes_snoc. simpl. rewrite Nat.add_0_r. eauto 10.
  - unfold step_uploader. by rewrite He.
  - unfold step_transfer. rewrite He. by destruct (cur s) as [[b n] |].
  - unfold step_answer. by rewrite He.
Qed.

Lemma final_answered : Ans final.
Proof.
  apply (answered_inv_return _ []); [done | done | done | by rewrite app_nil_r | by left].
Qed.

(** Every move takes a state of the program to another, or to a state the
    transport has answered. *)
Lemma Inv_step_any (m : move) (s s' : Machine) :
  Inv s \/ Ans s -> step c m s = Some s' -> Inv s' \/ Ans s'.
Proof.
  intros [Hinv | Hans] Hstep; [| right; by apply (answered_inv_step m s)].
  destruct (is_early m) eqn:Hm; [| left; by apply (Inv_step c name bs w0 bs_nonempty m s)].
  destruct m; try done. right. unfold step in Hstep.
  destruct (crashed s); [done |]. unfold step_answer in Hstep.
  destruct Hinv as [| done pre b later u Heq Hpre Hu | done later Heq Hdone | |].
  - simpl in Hstep. discriminate Hstep.
  - destruct Hu as [-> | (-> & _)]; simpl in Hstep; [| discriminate Hstep].
    injection Hstep as <-.
    apply (answered_inv_return _ (b ++ concat later));
      [done | done | apply no_read_writes | |].
    + rewrite Heq, concat_app. simpl. by rewrite <- !app_assoc.
    + right. rewrite full_writes_oks, Heq, length_app. simpl. lia.
  - simpl in Hstep. injection Hstep as <-.
    apply (answered_inv_return _ (concat later));
      [done | done | apply no_read_writes | by rewrite Heq, concat_app |].
    destruct later as [| b later]; [by left | right].
    rewrite full_writes_oks, Heq, length_app. simpl. lia.
  - simpl in Hstep. discriminate Hstep.
  - destruct final_answered as ((e & He) & _).
    rewrite He in Hstep. discriminate Hstep.
Qed.

Lemma Inv_run_any (ms : list move) :
  forall s s', Inv s \/ Ans s -> run c ms s = Some s' ->
               Inv s' \/ Ans s'.
Proof.
  induction ms as [| m ms IH]; intros s s' Hinv; simpl.
  - by intros [= <-].
  - destruct (step c m s) as [s1 |] eqn:Hs; [| done].
    apply IH. by apply (Inv_step_any m s).
Qed.



End AnyTransport.


(** ** Operations on a closed handle *)

Section AfterClose.
Context `{Library}.


End AfterClose.

(** * Examples *)



Example Read_missing_file :
  let L := example_library
             [("not found",
               JObject [("error_summary", JString "path/not_found/..")])] [] in
  let c := {| AccessToken := "token" |} in
  let f := Client_Open "/missing" in
  let w := {| script := [TResp (response 409 "application/json" "not found")]; log := [] |} in
  let w' := {| script := [];
               log := [(download_request c "/files/download"
                          (JObject [("path", JString "/missing")]) None, [])] |} in
  let e := {| Status := "Conflict"; StatusCode := 409; Summary := "";
              Payload := Some (JObject [("error_summary", JString "path/not_found/..")]) |} in
  reader f = None /\
  Files_Download c {| dl_Path := Name f |} w = Ret ((None, Some (ServiceError e)), w') /\
  File_Read c 16 f w = Ret (([], Some (PathError "open" "/missing" ENOENT)), f, w').
Proof.
  intros L c f w w' e.
  assert (Hr : reader f = None) by reflexivity.
  assert (Hd : Files_Download c {| dl_Path := Name f |} w
               = Ret ((None, Some (ServiceError e)), w')) by reflexivity.
  split; [exact Hr |]. split; [exact Hd |].
  exact (Read_translates_not_found c 16 f w w' None (ServiceError e) Hr Hd).
Defined.

Example Close_twice :
  let f := snd (File_Close (Client_Open "/a.txt")) in
  closed f = true /\
  File_Close f = (Some (PathError "close" "/a.txt" EINVAL), f).
Proof.
  intros f.
  assert (Hc : closed f = true) by reflexivity.
  split; [exact Hc | exact (Close_twice_invalid f Hc)].
Defined.

Example do_server_overloaded :
  let L := example_library [] [] in
  let c := {| AccessToken := "token" |} in
  let req := call_request c "/files/get_metadata"
               (JObject [("path", JString "/a.bin"); ("include_media_info", JBool false)]) in
  let sent := list_byte_of_string
                (render (JObject [("path", JString "/a.bin");
                                  ("include_media_info", JBool false)])) in
  let res := response 500 "text/plain; charset=utf-8" "server overloaded" in
  Req_Body req = Some (BytesReader sent) /\
  400 <= Res_StatusCode res /\
  Contains (Header_Get "Content-Type" (Res_Header res)) "text/plain" = true /\
  io_ReadAll (Res_Body res) = inr (list_byte_of_string "server overloaded") /\
  exists e, Client_do None req {| script := [TResp res]; log := [] |}
            = Ret ((None, 0, Some (ServiceError e)),
                   {| script := []; log := [(req, sent)] |}) /\
            Status e = "Internal Server Error" /\ StatusCode e = 500 /\
            Summary e = "server overloaded" /\ Payload e = None.
Proof.
  intros L c req sent res.
  assert (Hb : Req_Body req = Some (BytesReader sent)) by reflexivity.
  assert (Hc : 400 <= Res_StatusCode res) by (simpl; lia).
  assert (Hk : Contains (Header_Get "Content-Type" (Res_Header res)) "text/plain" = true)
    by reflexivity.
  assert (Hr : io_ReadAll (Res_Body res) = inr (list_byte_of_string "server overloaded"))
    by reflexivity.
  split; [exact Hb |]. split; [exact Hc |]. split; [exact Hk |]. split; [exact Hr |].
  destruct (do_error_decoding req sent res [] [] (or_intror Hb)) as (_ & Htext & _).
  exact (Htext Hc Hk _ Hr).
Defined.

Example ListN_five_of_nine :
  let p1 := {| Cursor := "c1"; HasMore := true;
               Entries := [file_entry "a1"; file_entry "a2"; file_entry "a3"] |} in
  let p2 := {| Cursor := "c2"; HasMore := true;
               Entries := [file_entry "b1"; file_entry "b2"; file_entry "b3"] |} in
  let p3 := {| Cursor := "c3"; HasMore := false;
               Entries := [file_entry "d1"; file_entry "d2"; file_entry "d3"] |} in
  let pages := [p1; p2; p3] in
  let L := example_library [] (page_table pages) in
  let c := {| AccessToken := "token" |} in
  0 < 5 /\
  Forall2 page_answer (page_responses pages) pages /\
  listing pages /\
  exists used unused rs2 lg',
    pages = used ++ unused /\
    Client_ListN c "/" 5 {| script := page_responses pages ++ []; log := [] |}
    = Ret ((map Build_FileInfo
              [file_entry "a1"; file_entry "a2"; file_entry "a3";
               file_entry "b1"; file_entry "b2"], None),
           {| script := rs2 ++ []; log := [] ++ lg' |}) /\
    Forall2 page_answer rs2 unused /\
    length lg' = length used.
Proof.
  intros p1 p2 p3 pages L c.
  assert (H5 : 0 < 5) by lia.
  assert (Hrs : Forall2 page_answer (page_responses pages) pages).
  { repeat constructor; eexists; (split; [reflexivity |]); (split; [simpl; lia |]);
      vm_compute; reflexivity. }
  assert (Hl : listing pages) by (simpl; auto).
  split; [exact H5 |]. split; [exact Hrs |]. split; [exact Hl |].
  destruct (ListN_returns_capped_prefix c "/" 5 (page_responses pages) [] pages [] H5 Hrs Hl)
    as (used & unused & rs2 & lg' & Hpages & Hrun & _ & Hrs2 & Hlen & _ & _).
  exists used, unused, rs2, lg'.
  split; [exact Hpages |]. split; [exact Hrun |]. split; [exact Hrs2 | exact Hlen].
Defined.

Example ListN_five_of_nine_run :
  let p1 := {| Cursor := "c1"; HasMore := true;
               Entries := [file_entry "a1"; file_entry "a2"; file_entry "a3"] |} in
  let p2 := {| Cursor := "c2"; HasMore := true;
               Entries := [file_entry "b1"; file_entry "b2"; file_entry "b3"] |} in
  let p3 := {| Cursor := "c3"; HasMore := false;
               Entries := [file_entry "d1"; file_entry "d2"; file_entry "d3"] |} in
  let pages := [p1; p2; p3] in
  let L := example_library [] (page_table pages) in
  let c := {| AccessToken := "token" |} in
  exists lg,
    Client_ListN c "/" 5 {| script := page_responses pages; log := [] |}
    = Ret ((map Build_FileInfo
              [file_entry "a1"; file_entry "a2"; file_entry "a3";
               file_entry "b1"; file_entry "b2"], None),
           {| script := page_responses [p3]; log := lg |}) /\
    length lg = 2%nat.
Proof.
  intros p1 p2 p3 pages L c. eexists. split; [vm_compute; reflexivity | reflexivity].
Qed.

Example ListN_empty_folder :
  let p := {| Cursor := "c1"; HasMore := false; Entries := [] |} in
  let L := example_library [] (page_table [p]) in
  let c := {| AccessToken := "token" |} in
  0 < 10 /\
  Forall2 page_answer (page_responses [p]) [p] /\
  listing [p] /\
  entries [p] = [] /\
  exists lg',
    Client_ListN c "/empty" 10 {| script := page_responses [p] ++ []; log := [] |}
    = Ret (([], Some EOF), {| script := []; log := [] ++ lg' |}) /\
    length lg' = length [p].
Proof.
  intros p L c.
  assert (H10 : 0 < 10) by lia.
  assert (Hrs : Forall2 page_answer (page_responses [p]) [p]).
  { repeat constructor; eexists; (split; [reflexivity |]); (split; [simpl; lia |]);
      vm_compute; reflexivity. }
  assert (Hl : listing [p]) by reflexivity.
  assert (He : entries [p] = []) by reflexivity.
  split; [exact H10 |]. split; [exact Hrs |]. split; [exact Hl |]. split; [exact He |].
  exact (ListN_empty_listing_is_EOF c "/empty" 10 (page_responses [p]) [] [p] [] H10 Hrs Hl He).
Defined.

(** With a cap of zero, which stands for "all", the empty listing comes
    back as the empty sequence with a nil error. *)
Example ListN_zero_cap_empty_folder :
  let p := {| Cursor := "c1"; HasMore := false; Entries := [] |} in
  let L := example_library [] (page_table [p]) in
  let c := {| AccessToken := "token" |} in
  0 <= 0 /\
  exists w',
    Client_ListN c "/empty" 0 {| script := page_responses [p]; log := [] |}
    = Ret (([], None), w') /\
    script w' = [].
Proof.
  intros p L c. split; [lia |]. eexists. split; [vm_compute; reflexivity | reflexivity].
Qed.

(** A 502 whose body is an HTML page: the dispatcher returns the error of
    the JSON decoder, which carries neither the status code nor its text. *)
Example do_bad_gateway_html :
  let L := example_library [] [] in
  let c := {| AccessToken := "token" |} in
  let req := call_request c "/files/get_metadata"
               (JObject [("path", JString "/a.bin"); ("include_media_info", JBool false)]) in
  let res := response 502 "text/html" "<html>Bad Gateway</html>" in
  400 <= Res_StatusCode res /\
  (exists w', Client_do None req {| script := [TResp res]; log := [] |}
              = Ret ((None, 0,
                      Some (OtherError "invalid character looking for beginning of value")),
                     w')) /\
  ~ (exists o l e w', Client_do None req {| script := [TResp res]; log := [] |}
                      = Ret ((o, l, Some (ServiceError e)), w')).
Proof.
  intros L c req res. split; [simpl; lia |]. split.
  - eexists. vm_compute. reflexivity.
  - intros (o & l & e & w' & He). vm_compute in He. discriminate He.
Qed.




(** * Further properties *)

(** ** Listing without a cap, failures and the requests made *)

Section ListingFurther.
Context `{Library}.

Local Abbreviation listing_call c name cursor :=
  (if String.eqb cursor "" then
     x <- Files_ListFolder c {| lf_Path := name; lf_Recursive := false;
                                lf_IncludeMediaInfo := false;
                                lf_IncludeDeleted := false |} ;;
     ret (snd x)
   else Files_ListFolderContinue c {| lc_Cursor := cursor |}).

Lemma listing_call_request (c : Client) (name cursor : string) (r : transport_result)
    (s : list transport_result) (lg : list (Request * bytes)) :
  listing_call c name cursor {| script := r :: s; log := lg |}
  = match Client_do_finish r with
    | (_, _, Some err) =>
        Ret ((None, Some err),
             {| script := s; log := lg ++ [listing_request c name cursor] |})
    | (None, _, None) => Panic
    | (Some body, _, None) =>
        Ret (decode_ListFolderOutput body,
             {| script := s; log := lg ++ [listing_request c name cursor] |})
    end.
Proof.
  unfold listing_request. destruct (String.eqb cursor "").
  - unfold bind, Files_ListFolder, bind. rewrite Client_call_script.
    destruct (Client_do_finish r) as [[[body |] l] [e |]]; reflexivity.
  - unfold Files_ListFolderContinue, bind. rewrite Client_call_script.
    destruct (Client_do_finish r) as [[[body |] l] [e |]]; reflexivity.
Qed.

Lemma page_answer_finish (c : Client) (name cursor : string) (r : transport_result)
    (p : ListFolderOutput) (s : list transport_result) (lg : list (Request * bytes)) :
  page_answer r p ->
  listing_call c name cursor {| script := r :: s; log := lg |}
  = Ret ((Some p, None),
         {| script := s; log := lg ++ [listing_request c name cursor] |}).
Proof.
  intros (res & -> & Hc & Hd). apply Z.ltb_lt in Hc.
  rewrite listing_call_request. unfold Client_do_finish. rewrite Hc. simpl.
  by rewrite Hd.
Qed.

Lemma failing_answer_finish (c : Client) (name cursor : string) (r : transport_result)
    (err : error) (s : list transport_result) (lg : list (Request * bytes)) :
  failing_answer r err ->
  exists out,
    listing_call c name cursor {| script := r :: s; log := lg |}
    = Ret ((out, Some err),
           {| script := s; log := lg ++ [listing_request c name cursor] |}).
Proof.
  rewrite listing_call_request.
  intros [Hf | (body & l & out & Hf & Hd)]; rewrite Hf; [| rewrite Hd]; eauto.
Qed.

(** The loop without a cap runs through the whole listing. *)
Lemma ListN_loop_all (c : Client) (name : string) (rest : list transport_result) :
  forall (rs : list transport_result) (pages : list ListFolderOutput),
    Forall2 page_answer rs pages ->
    listing pages ->
    forall (fuel : nat) (cursor : string) (lst : list FileInfo)
           (lg : list (Request * bytes)),
      (length rs < fuel)%nat ->
      ListN_loop fuel c name (-1) cursor lst {| script := rs ++ rest; log := lg |}
      = Ret ((lst ++ entries pages, None),
             {| script := rest; log := lg ++ listing_requests c name cursor pages |}).
Proof.
  induction 1 as [| r p rs ps Hrp Hall IH]; intros Hl fuel cursor lst lg Hfuel.
  { destruct Hl. }
  destruct fuel as [| fuel]; [simpl in Hfuel; lia |].
  cbn [ListN_loop]. unfold bind at 1.
  change ((r :: rs) ++ rest) with (r :: (rs ++ rest)).
  rewrite (page_answer_finish c name cursor r p _ _ Hrp).
  cbn [andb Z.leb Z.compare].
  destruct (listing_tail p ps Hl) as [[Hm ->] | (Hm & Hne & Hps)]; rewrite Hm; simpl.
  - inversion Hall; subst. by rewrite entries_one.
  - rewrite IH; [| done | simpl in Hfuel; lia].
    by rewrite entries_cons, <- !app_assoc.
Qed.

Lemma ListN_zero_all (c : Client) (name : string)
    (rs rest : list transport_result) (pages : list ListFolderOutput)
    (lg : list (Request * bytes)) :
  Forall2 page_answer rs pages ->
  listing pages ->
  Client_ListN c name 0 {| script := rs ++ rest; log := lg |}
  = Ret ((entries pages, None),
         {| script := rest; log := lg ++ listing_requests c name "" pages |}).
Proof.
  intros Hrs Hl. unfold Client_ListN. cbn [script Z.leb Z.compare].
  rewrite (ListN_loop_all c name rest rs pages Hrs Hl); [done |].
  rewrite length_app. lia.
Qed.

(** X1.  With a cap n <= 0, against a listing whose pages the transport
    answers in order, list-up-to-n returns every entry of every page in
    order with a nil error, also when there is none, and leaves no answer
    unread.  Its requests are the first-page call for the normalized name
    and then, for each further page, the continuation with the cursor of
    the page before, or the first-page call again when that cursor is
    empty. *)
Theorem ListN_all_entries (c : Client) (name : string) (n : Z)
    (rs rest : list transport_result) (pages : list ListFolderOutput)
    (lg : list (Request * bytes)) :
  n <= 0 ->
  Forall2 page_answer rs pages ->
  listing pages ->
  Client_ListN c name n {| script := rs ++ rest; log := lg |}
  = Ret ((entries pages, None),
         {| script := rest; log := lg ++ listing_requests c name "" pages |}).
Proof.
  intros Hn Hrs Hl. unfold Client_ListN.
  destruct (n <=? 0) eqn:Hn0; [| apply Z.leb_gt in Hn0; lia].
  cbn [script].
  rewrite (ListN_loop_all c name rest rs pages Hrs Hl); [done |].
  rewrite length_app. lia.
Qed.

(** The loop when a call fails after some pages that all announce more. *)
Lemma ListN_loop_fails (c : Client) (name : string) (n : Z)
    (r : transport_result) (err : error) (rest : list transport_result) :
  failing_answer r err ->
  forall (rs : list transport_result) (ps : list ListFolderOutput),
    Forall2 page_answer rs ps ->
    Forall (fun p => HasMore p = true) ps ->
    forall (fuel : nat) (cursor : string) (lst : list FileInfo)
           (lg : list (Request * bytes)),
      (length rs < fuel)%nat ->
      n = -1 \/ Z.of_nat (length (lst ++ entries ps)) < n ->
      exists lg',
        ListN_loop fuel c name n cursor lst {| script := rs ++ r :: rest; log := lg |}
        = Ret ((lst ++ entries ps, Some err), {| script := rest; log := lg ++ lg' |}) /\
        length lg' = S (length ps).
Proof.
  intros Hfail. induction 1 as [| a p rs ps Hap Hall IH];
    intros Hmore fuel cursor lst lg Hfuel Hn;
    (destruct fuel as [| fuel]; [simpl in Hfuel; lia |]);
    cbn [ListN_loop]; unfold bind at 1.
  - simpl.
    destruct (failing_answer_finish c name cursor r err rest lg Hfail) as [out ->].
    exists [listing_request c name cursor].
    change (entries []) with (@nil FileInfo). rewrite app_nil_r.
    by destruct out.
  - change ((a :: rs) ++ r :: rest) with (a :: (rs ++ r :: rest)).
    rewrite (page_answer_finish c name cursor a p _ _ Hap).
    inversion Hmore as [| ? ? Hp Hps]; subst.
    rewrite entries_cons, app_assoc in Hn.
    set (lst' := lst ++ map Build_FileInfo (Entries p)) in *.
    assert (Hcap : (0 <=? n) && (n <=? Z.of_nat (length lst')) = false).
    { destruct Hn as [-> | Hn]; [done |].
      rewrite length_app in Hn. apply andb_false_iff. right. apply Z.leb_gt. lia. }
    rewrite Hcap, Hp. simpl.
    destruct (IH Hps fuel (Cursor p) lst' (lg ++ [listing_request c name cursor]))
      as (lg' & Hrun & Hlen); [simpl in Hfuel; lia | exact Hn |].
    exists (listing_request c name cursor :: lg').
    rewrite Hrun, entries_cons. subst lst'. rewrite <- !app_assoc. simpl.
    by rewrite Hlen.
Qed.

Lemma ListN_zero_fails (c : Client) (name : string)
    (rs : list transport_result) (ps : list ListFolderOutput)
    (r : transport_result) (err : error) (rest : list transport_result)
    (lg : list (Request * bytes)) :
  Forall2 page_answer rs ps ->
  Forall (fun p => HasMore p = true) ps ->
  failing_answer r err ->
  exists lg',
    Client_ListN c name 0 {| script := rs ++ r :: rest; log := lg |}
    = Ret ((entries ps, Some err), {| script := rest; log := lg ++ lg' |}) /\
    length lg' = S (length ps).
Proof.
  intros Hrs Hmore Hfail. unfold Client_ListN. cbn [script Z.leb Z.compare].
  apply (ListN_loop_fails c name _ r err rest Hfail rs ps Hrs Hmore).
  - rewrite length_app. simpl. lia.
  - by left.
Qed.

(** X2.  When a listing call fails after some pages (each announcing more,
    the cap not reached), list-up-to-n returns the entries gathered so far
    together with the error of the failed call: the error is the
    dispatcher's or the decoder's own, not end-of-stream, and the entries
    are not dropped.  One request was made per page and one for the failed
    call. *)
Theorem ListN_error_keeps_entries (c : Client) (name : string) (n : Z)
    (rs : list transport_result) (ps : list ListFolderOutput)
    (r : transport_result) (err : error) (rest : list transport_result)
    (lg : list (Request * bytes)) :
  Forall2 page_answer rs ps ->
  Forall (fun p => HasMore p = true) ps ->
  n <= 0 \/ Z.of_nat (length (entries ps)) < n ->
  failing_answer r err ->
  exists lg',
    Client_ListN c name n {| script := rs ++ r :: rest; log := lg |}
    = Ret ((entries ps, Some err), {| script := rest; log := lg ++ lg' |}) /\
    length lg' = S (length ps).
Proof.
  intros Hrs Hmore Hn Hfail. unfold Client_ListN. cbn [script].
  apply (ListN_loop_fails c name _ r err rest Hfail rs ps Hrs Hmore).
  - rewrite length_app. simpl. lia.
  - destruct (n <=? 0) eqn:Hn0; [by left | right].
    apply Z.leb_gt in Hn0. simpl. lia.
Qed.

(** The loop under a positive cap, whatever the transport answers. *)
Lemma ListN_loop_bounded (c : Client) (name : string) (n : Z) (fuel : nat) :
  0 < n ->
  forall (cursor : string) (lst : list FileInfo) (w w' : World)
         (out : list FileInfo) (err : option error),
    Z.of_nat (length lst) < n ->
    ListN_loop fuel c name n cursor lst w = Ret ((out, err), w') ->
    Z.of_nat (length out) <= n /\ (err = None -> out <> []).
Proof.
  intros Hn. induction fuel as [| fuel IH]; intros cursor lst w w' out err Hlst; [done |].
  cbn [ListN_loop]. unfold bind at 1.
  destruct (listing_call_any c name cursor w) as [Hp | (r & w1 & Hr & _ & _)];
    [by rewrite Hp |].
  rewrite Hr.
  assert (H0 : (0 <=? n) = true) by (apply Z.leb_le; lia).
  destruct r as [[p |] [e |]]; try done.
  1, 3: intros [= <- <- <-]; split; [lia | done].
  set (lst' := lst ++ map Build_FileInfo (Entries p)).
  rewrite H0. cbn [andb].
  destruct (n <=? Z.of_nat (length lst')) eqn:Hcap.
  - apply Z.leb_le in Hcap. unfold ListN_end, ret. rewrite H0. cbn [andb].
    assert (Hlen : length (take (Z.to_nat n) lst') = Z.to_nat n)
      by (rewrite length_take; lia).
    destruct (Z.of_nat (length (take (Z.to_nat n) lst')) =? 0) eqn:Hz;
      intros [= <- <- <-]; (split; [lia |]); [done |].
    intros _ Hnil. rewrite Hnil in Hlen. simpl in Hlen. lia.
  - apply Z.leb_gt in Hcap. destruct (negb (HasMore p)).
    + unfold ListN_end, ret. rewrite H0. cbn [andb].
      destruct (Z.of_nat (length lst') =? 0) eqn:Hz;
        intros [= <- <- <-]; (split; [lia |]); [done |].
      intros _ Hnil. rewrite Hnil in Hz. done.
    + by apply IH.
Qed.

(** X3.  With a positive cap n, whatever the transport answers,
    list-up-to-n never returns more than n entries and never returns an
    empty sequence with a nil error. *)
Theorem ListN_cap_is_respected (c : Client) (name : string) (n : Z) (w w' : World)
    (out : list FileInfo) (err : option error) :
  0 < n ->
  Client_ListN c name n w = Ret ((out, err), w') ->
  Z.of_nat (length out) <= n /\ (err = None -> out <> []).
Proof.
  intros Hn. unfold Client_ListN.
  destruct (n <=? 0) eqn:Hn0; [apply Z.leb_le in Hn0; lia |].
  apply ListN_loop_bounded; [done | simpl; lia].
Qed.

(** X4.  When the first answer to a listing is a success whose body leaves
    the output pointer nil without an error (a JSON null), list-up-to-n
    panics on the nil page instead of returning. *)
Theorem ListN_nil_page_panics (c : Client) (name : string) (n : Z) (res : Response)
    (rest : list transport_result) (lg : list (Request * bytes)) :
  Res_StatusCode res < 400 ->
  decode_ListFolderOutput (Res_Body res) = (None, None) ->
  Client_ListN c name n {| script := TResp res :: rest; log := lg |} = Panic.
Proof.
  intros Hc Hd. apply Z.ltb_lt in Hc.
  unfold Client_ListN. cbn [script length ListN_loop]. unfold bind at 1.
  rewrite listing_call_request. unfold Client_do_finish. rewrite Hc. simpl.
  by rewrite Hd.
Qed.

(** X5.  The account root can be named "/" or "": list-up-to-n behaves the
    same for both, in its result and in every request it makes. *)
Theorem ListN_root_spellings (c : Client) (n : Z) (w : World) :
  Client_ListN c "/" n w = Client_ListN c "" n w.
Proof.
  unfold Client_ListN. generalize (S (length (script w))) as fuel.
  generalize (if n <=? 0 then -1 else n) as m. intros m fuel.
  generalize (@nil FileInfo) as lst. generalize "" at 2 4 as cursor. revert w.
  induction fuel as [| fuel IH]; intros w cursor lst; [done |].
  cbn [ListN_loop]. unfold bind at 1 3.
  change (Files_ListFolder c {| lf_Path := "/"; lf_Recursive := false;
                                lf_IncludeMediaInfo := false;
                                lf_IncludeDeleted := false |})
    with (Files_ListFolder c {| lf_Path := ""; lf_Recursive := false;
                                lf_IncludeMediaInfo := false;
                                lf_IncludeDeleted := false |}).
  match goal with
  | |- context [(if String.eqb cursor "" then ?a else ?b) w] =>
      destruct ((if String.eqb cursor "" then a else b) w) as [[[[p |] [e |]] w1] | |]
  end; try done.
  destruct ((0 <=? m) && _); [done |].
  destruct (negb (HasMore p)); [done |]. apply IH.
Qed.

End ListingFurther.


(** ** Filters, Stat and the file-info adapter *)

Section FacadeFurther.
Context `{Library}.

Lemma filter_split_length {A} (f : A -> bool) (l : list A) :
  (length (List.filter f l) + length (List.filter (fun x => negb (f x)) l))%nat = length l.
Proof. induction l as [| x l IH]; simpl; [done |]. destruct (f x); simpl; lia. Qed.

(** X6.  Against a listing whose pages the transport answers in order,
    list-folders returns the entries tagged "folder" and list-files all the
    others, each in the order of the pages and with a nil error even when
    nothing matches; every entry is in exactly one of the two results. *)
Theorem ListFolders_ListFiles_split (c : Client) (name : string)
    (rs rest : list transport_result) (pages : list ListFolderOutput)
    (lg : list (Request * bytes)) :
  Forall2 page_answer rs pages ->
  listing pages ->
  let w := {| script := rs ++ rest; log := lg |} in
  let w' := {| script := rest; log := lg ++ listing_requests c name "" pages |} in
  let folders := List.filter (fun i => String.eqb (md_Tag (meta i)) "folder") (entries pages) in
  let files := List.filter (fun i => negb (String.eqb (md_Tag (meta i)) "folder"))
                 (entries pages) in
  Client_ListFolders c name w = Ret ((folders, None), w') /\
  Client_ListFiles c name w = Ret ((files, None), w') /\
  (length folders + length files)%nat = length (entries pages) /\
  (forall i, In i (entries pages) -> (In i folders /\ ~ In i files) \/
                                     (In i files /\ ~ In i folders)).
Proof.
  intros Hrs Hl w w' folders files. subst w w'.
  unfold Client_ListFolders, Client_ListFiles, Client_ListFilter, bind.
  rewrite (ListN_zero_all c name rs rest pages lg Hrs Hl).
  repeat split.
  - apply (filter_split_length (fun i => String.eqb (md_Tag (meta i)) "folder")).
  - intros i Hi. unfold folders, files.
    destruct (String.eqb (md_Tag (meta i)) "folder") eqn:Ht; [left | right];
      rewrite !filter_In, Ht; split; auto; intros [_ ?]; done.
Qed.

(** X7.  When the listing fails after some pages, the filters return no
    entry at all with the error: what list-up-to-n had gathered is
    dropped. *)
Theorem ListFilter_error_drops_entries (c : Client) (name : string)
    (filter : FileInfo -> bool)
    (rs : list transport_result) (ps : list ListFolderOutput)
    (r : transport_result) (err : error) (rest : list transport_result)
    (lg : list (Request * bytes)) :
  Forall2 page_answer rs ps ->
  Forall (fun p => HasMore p = true) ps ->
  failing_answer r err ->
  exists w',
    Client_ListFilter c name filter {| script := rs ++ r :: rest; log := lg |}
    = Ret (([], Some err), w') /\
    script w' = rest.
Proof.
  intros Hrs Hmore Hfail. unfold Client_ListFilter, bind.
  destruct (ListN_zero_fails c name rs ps r err rest lg Hrs Hmore Hfail)
    as (lg' & -> & _).
  eexists. split; reflexivity.
Qed.

(** X8.  Stat asks get-metadata for the path as given, without media
    info.  A failure of the call comes back as it is, so a missing path
    yields the service error and not a "no such file" system error as a
    read does; a success yields the file info of the decoded record; a
    body that leaves the output nil makes Stat panic, and so does an
    error answer in plain text whose body cannot be read. *)
Theorem Stat_passes_errors_through (c : Client) (name : string) (r : transport_result)
    (rest : list transport_result) (lg : list (Request * bytes)) :
  let j := JObject [("path", JString name); ("include_media_info", JBool false)] in
  let w := {| script := r :: rest; log := lg |} in
  let w' := {| script := rest;
               log := lg ++ [(call_request c "/files/get_metadata" j,
                              list_byte_of_string (json_Marshal j))] |} in
  (forall err, Client_do_finish r = (None, 0, Some err) ->
               Client_Stat c name w = Ret ((None, Some err), w')) /\
  (forall body l m, Client_do_finish r = (Some body, l, None) ->
                    decode_Metadata body = (Some m, None) ->
                    Client_Stat c name w = Ret ((Some {| meta := m |}, None), w')) /\
  (forall body l out err, Client_do_finish r = (Some body, l, None) ->
                          decode_Metadata body = (out, Some err) ->
                          Client_Stat c name w = Ret ((None, Some err), w')) /\
  (forall body l, Client_do_finish r = (Some body, l, None) ->
                  decode_Metadata body = (None, None) ->
                  Client_Stat c name w = Panic) /\
  (unreadable_text_error r -> Client_Stat c name w = Panic).
Proof.
  intros j w w'. subst w w'. unfold Client_Stat, Files_GetMetadata, bind.
  rewrite Client_call_script.
  repeat split.
  - intros err ->. reflexivity.
  - intros body l m -> Hd. simpl. by rewrite Hd.
  - intros body l out err -> Hd. simpl. rewrite Hd. by destruct out.
  - intros body l -> Hd. simpl. by rewrite Hd.
  - intros Hu. by rewrite (unreadable_text_error_finish r Hu).
Qed.

End FacadeFurther.

(** X9.  The mode of a file info has the directory bit exactly when the
    entry is tagged "folder", and never any permission bit. *)
Theorem FileInfo_Mode_bits (f : FileInfo) :
  FileMode_IsDir (FileInfo_Mode f) = FileInfo_IsDir f /\
  FileMode_Perm (FileInfo_Mode f) = 0 /\
  (FileInfo_IsDir f = true <-> md_Tag (meta f) = "folder") /\
  (FileInfo_Mode f = 0 \/ FileInfo_Mode f = 2 ^ 31).
Proof.
  unfold FileInfo_Mode, FileInfo_IsDir.
  destruct (String.eqb_spec (md_Tag (meta f)) "folder") as [-> | Hne].
  - repeat split; auto.
  - repeat split; auto; done.
Qed.

(** X10.  The size of a file info is the size of the record as long as it
    is below 2^63; a larger size (the record holds 64 unsigned bits) comes
    out negative, 2^64 too low. *)
Theorem FileInfo_Size_wraps (f : FileInfo) :
  0 <= md_Size (meta f) < 2 ^ 64 ->
  - 2 ^ 63 <= FileInfo_Size f < 2 ^ 63 /\
  (md_Size (meta f) < 2 ^ 63 -> FileInfo_Size f = md_Size (meta f)) /\
  (2 ^ 63 <= md_Size (meta f) ->
   FileInfo_Size f = md_Size (meta f) - 2 ^ 64 /\ FileInfo_Size f < 0).
Proof.
  intros Hs. unfold FileInfo_Size. rewrite Z.mod_small by lia.
  destruct (md_Size (meta f) <? 2 ^ 63) eqn:Hlt;
    [apply Z.ltb_lt in Hlt | apply Z.ltb_ge in Hlt]; lia.
Qed.

(** ** Reading a whole file *)

Section ReadFurther.
Context `{Library}.

Lemma Files_Download_script (c : Client) (name : string) (r : transport_result)
    (rest : list transport_result) (lg : list (Request * bytes)) :
  Files_Download c {| dl_Path := name |} {| script := r :: rest; log := lg |}
  = Ret (match Client_do_finish r with
         | (_, _, Some err) => (None, Some err)
         | (body, l, None) => (Some (body, l), None)
         end,
         {| script := rest;
            log := lg ++ [(download_request c "/files/download"
                             (JObject [("path", JString name)]) None, [])] |}).
Proof.
  unfold Files_Download, Client_download, bind.
  rewrite (Client_do_memory _ _ _ []) by (left; split; reflexivity).
  unfold round_trip; simpl.
  by destruct (Client_do_finish r) as [[body l] [e |]].
Qed.

(** Reading a held body to its end. *)
Lemma ReadAll_loop_body (c : Client) (sizes : nat -> nat) :
  (forall i, (0 < sizes i)%nat) ->
  forall (fuel i : nat) (f : File) (body : Body) (acc : bytes) (w : World),
    reader f = Some body ->
    isClosed body = false ->
    (length (data body) < fuel)%nat ->
    exists f',
      ReadAll_loop fuel c sizes i f acc w
      = Ret ((acc ++ data body, ReadAll_error (default EOF (readErr body))), f', w).
Proof.
  intros Hpos. induction fuel as [| fuel IH]; intros i f body acc w Hr Hc Hlen; [lia |].
  cbn [ReadAll_loop]. unfold bind at 1, File_Read, File_reader_Read.
  rewrite Hr. unfold Body_Read. rewrite Hc.
  destruct (data body) as [| x d] eqn:Hd.
  - unfold ret. rewrite app_nil_r.
    destruct (default EOF (readErr body)); eauto.
  - unfold ret.
    set (b' := {| data := drop (sizes i) (x :: d); readErr := readErr body;
                  closeErr := closeErr body; isClosed := false |}).
    destruct (IH (S i) (File_withReader b' f) b' (acc ++ take (sizes i) (x :: d)) w)
      as [f' Hf']; [done | done | |].
    { simpl data. rewrite length_drop. specialize (Hpos i). simpl in *. lia. }
    exists f'. rewrite Hf'. simpl data. simpl readErr.
    by rewrite <- app_assoc, take_drop.
Qed.

(** X11.  When the download answers with a status below 400, read-all
    makes one download request for the name and returns exactly the bytes
    of the body, whatever the sizes of the buffers it reads with; the
    error is nil when the body ends cleanly and the body's read error when
    it breaks off, the bytes before the break being returned with it. *)
Theorem Read_all_returns_body (fuel : nat) (c : Client) (name : string)
    (sizes : nat -> nat) (res : Response) (rest : list transport_result)
    (lg : list (Request * bytes)) :
  (forall i, (0 < sizes i)%nat) ->
  Res_StatusCode res < 400 ->
  isClosed (Res_Body res) = false ->
  (length (data (Res_Body res)) < fuel)%nat ->
  Client_Read fuel c name sizes {| script := TResp res :: rest; log := lg |}
  = Ret ((data (Res_Body res),
          match readErr (Res_Body res) with
          | None | Some EOF => None
          | Some e => Some e
          end),
         {| script := rest;
            log := lg ++ [(download_request c "/files/download"
                             (JObject [("path", JString name)]) None, [])] |}).
Proof.
  intros Hpos Hc Hopen Hlen. apply Z.ltb_lt in Hc.
  destruct fuel as [| fuel]; [lia |].
  set (w' := {| script := rest;
                log := lg ++ [(download_request c "/files/download"
                                 (JObject [("path", JString name)]) None, [])] |}).
  set (f1 := File_withReader (Res_Body res) (Client_Open name)).
  assert (Hfirst : forall k,
             File_Read c k (Client_Open name) {| script := TResp res :: rest; log := lg |}
             = File_Read c k f1 w').
  { intros k. unfold File_Read at 1, File_download, bind.
    change (reader (Client_Open name)) with (@None Body). cbv beta iota.
    change (Name (Client_Open name)) with name. rewrite Files_Download_script.
    unfold Client_do_finish. rewrite Hc. reflexivity. }
  destruct (ReadAll_loop_body c sizes Hpos (S fuel) 0 f1 (Res_Body res) [] w')
    as [f' Hf']; [done | done | done |].
  unfold Client_Read, bind.
  cbn [ReadAll_loop]. unfold bind at 1. rewrite Hfirst.
  cbn [ReadAll_loop] in Hf'. unfold bind at 1 in Hf'. rewrite Hf'.
  destruct (File_Close f') as [e f'']. unfold ret. simpl.
  do 3 f_equal. by destruct (readErr (Res_Body res)) as [[] |].
Qed.

(** X12.  When the download fails, read-all makes the one request and
    returns no bytes with the error of the first read: the "no such file"
    path error for an error text that begins with "path/not_found/", the
    error itself otherwise.  An [io.EOF] in that place is taken for the
    end of the file and comes back as nil. *)
Theorem Read_all_download_error (fuel : nat) (c : Client) (name : string)
    (sizes : nat -> nat) (r : transport_result) (err : error)
    (rest : list transport_result) (lg : list (Request * bytes)) :
  (0 < fuel)%nat ->
  Client_do_finish r = (None, 0, Some err) ->
  Client_Read fuel c name sizes {| script := r :: rest; log := lg |}
  = Ret (([], ReadAll_error (if HasPrefix (error_Error err) "path/not_found/"
                             then PathError "open" name ENOENT
                             else err)),
         {| script := rest;
            log := lg ++ [(download_request c "/files/download"
                             (JObject [("path", JString name)]) None, [])] |}).
Proof.
  intros Hfuel Hfail. destruct fuel as [| fuel]; [lia |].
  unfold Client_Read, bind. cbn [ReadAll_loop]. unfold bind at 1.
  unfold File_Read, File_download, bind.
  change (reader (Client_Open name)) with (@None Body). cbv beta iota.
  change (Name (Client_Open name)) with name.
  rewrite Files_Download_script, Hfail.
  destruct (HasPrefix (error_Error err) "path/not_found/"); [reflexivity |].
  unfold ret. by destruct err.
Qed.

(** X13.  A download that fails with a status of 400 or more, a content
    type other than text/plain and a body on which the JSON decoder
    reports [io.EOF] (an empty body) is not reported by read-all: it
    returns no bytes and a nil error, as for an empty file. *)
Theorem Read_all_hides_empty_error_body (fuel : nat) (c : Client) (name : string)
    (sizes : nat -> nat) (res : Response) (rest : list transport_result)
    (lg : list (Request * bytes)) :
  (0 < fuel)%nat ->
  400 <= Res_StatusCode res ->
  Contains (Header_Get "Content-Type" (Res_Header res)) "text/plain" = false ->
  decode_Payload (Res_Body res) = inl EOF ->
  exists w',
    Client_Read fuel c name sizes {| script := TResp res :: rest; log := lg |}
    = Ret (([], None), w') /\
    script w' = rest.
Proof.
  intros Hfuel Hc Hk Hd. apply Z.ltb_ge in Hc.
  destruct fuel as [| fuel]; [lia |].
  unfold Client_Read, bind. cbn [ReadAll_loop]. unfold bind at 1.
  unfold File_Read, File_download, bind.
  change (reader (Client_Open name)) with (@None Body). cbv beta iota.
  change (Name (Client_Open name)) with name.
  rewrite Files_Download_script. unfold Client_do_finish. rewrite Hc, Hk, Hd.
  eexists. split; reflexivity.
Qed.

(** X14.  Download sends the request of the raw stream call without a
    filter, and where the stream call hands back the transport's answer,
    download hands back what the dispatcher makes of it: the transport's
    error as it is, and for a response with a status below 400 its body
    and content length with a nil error. *)
Theorem Download_is_decoded_Stream (c : Client) (in_ : DownloadInput)
    (rest : list transport_result) (lg : list (Request * bytes)) :
  let req := download_request c "/files/download"
               (JObject [("path", JString (dl_Path in_))]) None in
  let w r := {| script := r :: rest; log := lg |} in
  let w' := {| script := rest; log := lg ++ [(req, [])] |} in
  (forall r, Files_Stream c in_ None (w r) = Ret (r, w')) /\
  (forall e, Files_Download c in_ (w (TErr e)) = Ret ((None, Some e), w')) /\
  (forall res, Res_StatusCode res < 400 ->
     Files_Download c in_ (w (TResp res))
     = Ret ((Some (Some (Res_Body res), ContentLength res), None), w')).
Proof.
  intros req w w'. destruct in_ as [name]. split; [| split].
  - intros r. reflexivity.
  - intros e. unfold w. by rewrite Files_Download_script.
  - intros res Hc. apply Z.ltb_lt in Hc. unfold w.
    rewrite Files_Download_script. unfold Client_do_finish. by rewrite Hc.
Qed.

End ReadFurther.


(** ** Any program on a handle *)

Section HandleFurther.
Context `{Library}.

Lemma uploads_snoc (lg : list (Request * bytes)) (e : Request * bytes) :
  uploads (lg ++ [e]) = (uploads lg + if is_upload e then 1 else 0)%nat.
Proof.
  unfold uploads. rewrite List.filter_app, length_app. simpl.
  by destruct (is_upload e).
Qed.

(** A read logs at most a download and leaves the writing flag alone. *)
Lemma File_Read_uploads (c : Client) (k : nat) (f f' : File) (w w' : World)
    (r : bytes * option error) :
  File_Read c k f w = Ret ((r, f'), w') ->
  uploads (log w') = uploads (log w) /\ writing f' = writing f.
Proof.
  assert (Hheld : forall g w1, File_reader_Read k g w1 = Ret ((r, f'), w') ->
                               w' = w1 /\ writing f' = writing g).
  { intros g w1. unfold File_reader_Read. destruct (reader g) as [b |]; [| done].
    destruct (Body_Read k b) as [r' b']. unfold ret. by intros [= <- <- <-]. }
  unfold File_Read. destruct (reader f) as [b |] eqn:Hr.
  - intros Hrd. by destruct (Hheld f w Hrd) as [-> ->].
  - unfold File_download, Files_Download, Client_download, bind.
    rewrite (Client_do_memory _ _ _ []) by (left; split; reflexivity).
    pose proof (round_trip_log
                  (download_request c "/files/download"
                     (marshal_DownloadInput {| dl_Path := Name f |}) None) [] w) as Hlog.
    destruct (round_trip _ [] w) as [a w1]. simpl in Hlog |- *.
    assert (Hup : uploads (log w1) = uploads (log w)).
    { rewrite Hlog, uploads_snoc. simpl. lia. }
    destruct (Client_do_finish a) as [[body l] [e |]].
    + unfold ret. simpl.
      destruct (HasPrefix (error_Error e) "path/not_found/");
        intros [= <- <- <-]; done.
    + unfold ret. simpl. intros Hrd. destruct (Hheld _ _ Hrd) as [-> ->]. done.
Qed.

(** The uploader's return keeps the invariant: it logs the one upload. *)
Lemma upload_inv_return (c : Client) (n0 : nat) (req : Request) (acc : bytes)
    (s : Machine) :
  upload_inv n0 s -> up s = USending req acc ->
  upload_inv n0 (uploader_return c acc s).
Proof.
  intros (Hw & Hs & Hu) Hup.
  destruct (uploader_return_fields c acc s)
    as (Hwd & _ & _ & _ & (e & He) & _ & _ & Hwr & _).
  unfold upload_inv. rewrite Hwd, He, Hwr, round_trip_log, uploads_snoc.
  rewrite Hup in Hu. split; [| split].
  - split; [| done]. intros Hf. apply Hw in Hf. by rewrite Hup in Hf.
  - done.
  - change (is_upload _) with true. cbv iota. simpl in Hu. lia.
Qed.

Lemma upload_inv_step (c : Client) (n0 : nat) (m : move) (s s' : Machine) :
  upload_inv n0 s -> step c m s = Some s' -> upload_inv n0 s'.
Proof.
  intros Hinv. unfold step. destruct (crashed s); [done |].
  pose proof (fun req acc => upload_inv_return c n0 req acc s Hinv) as Hret.
  revert Hinv Hret.
  destruct s as [f w td cu rs u]. intros (Hw & Hs & Hu) Hret. simpl in Hw, Hs, Hu, Hret.
  destruct m as [| | k |]; simpl.
  - unfold step_caller; simpl. destruct cu as [[b n] |].
    + destruct (Pipe_done (pipe f)); intros [= <-]. done.
    + destruct td as [| [k | b |] rest]; [done | | |].
      * destruct (File_Read c k f w) as [[[[b err] f'] w'] | |] eqn:Hrd; intros [= <-].
        apply File_Read_uploads in Hrd as [Hup Hwr].
        unfold upload_inv; simpl. by rewrite Hup, Hwr.
      * unfold File_Write_enter. destruct (writing f) eqn:Hwr; simpl; intros [= <-].
        -- unfold upload_inv; simpl. by rewrite Hwr.
        -- assert (u = UIdle) as -> by (by apply Hw).
           unfold upload_inv; simpl. repeat split; done.
      * pose proof (File_Close_writing f) as Hwr.
        destruct (File_Close f) as [err f']. simpl in Hwr. intros [= <-].
        unfold upload_inv; simpl. by rewrite Hwr.
  - unfold step_uploader; simpl. destruct u as [| | req acc | err]; try done.
    + intros [= <-]. unfold upload_inv; simpl. repeat split; try done.
      * intros Hf. by apply Hw in Hf.
      * by intros ? ? [= <- <-].
    + destruct (Pipe_done (pipe f)); [| done].
      intros [= <-]. by apply (Hret req).
  - unfold step_transfer; simpl. destruct cu as [[b n] |]; [| done].
    destruct u as [| | req acc | err]; try done.
    destruct ((0 <? k)%nat && negb (Pipe_done (pipe f))); [| done].
    destruct (drop (k `min` length b) b); intros [= <-];
      unfold upload_inv; simpl;
      (split; [split; [intros Hf; by apply Hw in Hf | done] |]);
      (split; [intros ? ? [= <- <-]; exact (Hs req acc eq_refl) | done]).
  - unfold step_answer; simpl. destruct u as [| | req acc | err]; try done.
    destruct (Pipe_done (pipe f)); [done |].
    intros [= <-]. by apply (Hret req).
Qed.

Lemma upload_inv_run (c : Client) (n0 : nat) (ms : list move) :
  forall s s', upload_inv n0 s -> run c ms s = Some s' -> upload_inv n0 s'.
Proof.
  induction ms as [| m ms IH]; intros s s' Hinv; simpl.
  - by intros [= <-].
  - destruct (step c m s) as [s1 |] eqn:Hs; [| done].
    apply IH. by apply (upload_inv_step c n0 m s).
Qed.

Lemma no_write_inv_step (c : Client) (m : move) (s s' : Machine) :
  no_write_inv s -> step c m s = Some s' -> no_write_inv s'.
Proof.
  destruct s as [f w td cu rs u]. intros (Ht & Hc & Hu). simpl in Ht, Hc, Hu. subst.
  destruct m as [| | k |]; unfold step; simpl; try done.
  unfold step_caller; simpl.
  destruct td as [| [k | b |] rest]; try done; simpl in Ht.
  - destruct (File_Read c k f w) as [[[[b err] f'] w'] | |]; intros [= <-]; done.
  - destruct (File_Close f) as [err f']. intros [= <-]. done.
Qed.

Lemma no_write_inv_run (c : Client) (ms : list move) :
  forall s s', no_write_inv s -> run c ms s = Some s' -> no_write_inv s'.
Proof.
  induction ms as [| m ms IH]; intros s s' Hinv; simpl.
  - by intros [= <-].
  - destruct (step c m s) as [s1 |] eqn:Hs; [| done].
    apply IH. by apply (no_write_inv_step c m s).
Qed.

(** X15.  Whatever operations a caller runs on a handle and however they
    interleave with the uploader, the handle makes at most one upload call:
    the log holds one upload more than before exactly when the uploader has
    finished, and none more otherwise.  A program without a write never
    launches the uploader, so it uploads nothing. *)
Theorem handle_uploads_at_most_once (c : Client) (name : string) (ops : list op)
    (w0 : World) (ms : list move) (s : Machine) :
  run c ms (Machine_init name ops w0) = Some s ->
  (uploads (log (world s)) <= uploads (log w0) + 1)%nat /\
  (uploads (log (world s)) = (uploads (log w0) + 1)%nat <-> exists err, up s = UDone err) /\
  (forallb (fun o => negb (is_write o)) ops = true ->
   up s = UIdle /\ writing (file s) = false /\ uploads (log (world s)) = uploads (log w0)).
Proof.
  intros Hrun.
  assert (H0 : upload_inv (uploads (log w0)) (Machine_init name ops w0)).
  { unfold upload_inv; simpl. repeat split; try done. }
  destruct (upload_inv_run c _ ms _ s H0 Hrun) as (Hw & _ & Hu).
  split; [destruct (up s); lia |]. split.
  - split.
    + intros Heq. destruct (up s) as [| | req acc | err]; try lia. eauto.
    + intros [err He]. rewrite He in Hu. lia.
  - intros Hops.
    assert (H1 : no_write_inv (Machine_init name ops w0)) by done.
    destruct (no_write_inv_run c ms _ s H1 Hrun) as (_ & _ & Hidle).
    split; [done |]. split; [by apply Hw |]. rewrite Hidle in Hu. lia.
Qed.

End HandleFurther.

(** ** Closing, and the order of the bytes *)

(** X16.  The first close of a handle marks it closed whatever it returns:
    it closes the write end of the pipe when the handle was written to and
    leaves the pipe alone otherwise, closes the download body when one is
    held, and returns the error of closing that body, nil when there is
    none; closing the pipe never fails.  So a close that returned an error
    cannot be retried: the next one fails with EINVAL. *)
Theorem Close_releases_what_is_held (f : File) :
  closed f = false ->
  let err := fst (File_Close f) in
  let f' := snd (File_Close f) in
  closed f' = true /\ Name f' = Name f /\ writing f' = writing f /\
  (writing f = true ->
   Pipe_done (pipe f') = true /\ is_Some (werr (pipe f')) /\
   rerr (pipe f') = rerr (pipe f)) /\
  (writing f = false -> pipe f' = pipe f) /\
  (forall b, reader f = Some b ->
     err = closeErr b /\
     reader f' = Some {| data := data b; readErr := readErr b;
                         closeErr := closeErr b; isClosed := true |}) /\
  (reader f = None -> err = None /\ reader f' = None) /\
  fst (File_Close f') = Some (PathError "close" (Name f) EINVAL).
Proof.
  intros Hc. destruct f as [nm cl wr rd p]. simpl in Hc. subst cl.
  unfold File_Close; simpl.
  split; [by destruct wr, rd |]. split; [by destruct wr, rd |].
  split; [by destruct wr, rd |]. split.
  { intros ->. destruct rd, p as [re [we |]]; simpl; destruct re; eauto. }
  split; [intros ->; by destruct rd |]. split.
  { intros b ->. by destruct wr. }
  split; [intros ->; by destruct wr |]. by destruct wr, rd.
Qed.

Section OrderFurther.
Context `{Library}.

Lemma oks_app (xs ys : list bytes) : oks (xs ++ ys) = oks xs ++ oks ys.
Proof. unfold oks. apply map_app. Qed.

(** X17.  While chunks are written to a fresh handle and the handle is then
    closed, at every moment of every schedule, whenever the transport
    answers, the bytes the transport has read are a prefix of the
    concatenation of the chunks, read off the upload request of the
    handle, and the log holds nothing new or that one upload with such a
    prefix as its body.  When the transport reads the body to its end
    before it answers, the results returned so far are a prefix of the
    final ones: each finished write has returned its full length with a
    nil error. *)
Theorem bytes_reach_transport_in_order (c : Client) (name : string) (bs : list bytes)
    (w0 : World) (ms : list move) (s : Machine) :
  bs <> [] ->
  run c ms (write_close_init name bs w0) = Some s ->
  (forall req acc, up s = USending req acc ->
     req = upload_request c name /\ exists rest, concat bs = acc ++ rest) /\
  (log (world s) = log w0 \/
   exists acc rest, log (world s) = log w0 ++ [(upload_request c name, acc)] /\
                    concat bs = acc ++ rest) /\
  (draining ms = true -> exists later, oks bs ++ [CloseResult None] = results s ++ later).
Proof.
  intros Hbs Hrun.
  pose proof (final_answered c name bs w0) as Hfinal.
  split; [| split].
  - intros req acc Hup.
    destruct (Inv_run_any c name bs w0 Hbs ms _ s (or_introl (Inv_start c name bs w0)) Hrun)
      as [Hinv | ((e & He) & _)]; [| congruence].
    destruct Hinv as [| done pre b later u Heq Hpre Hu | done later Heq Hdone | |];
      simpl in Hup.
    + done.
    + destruct Hu as [-> | (-> & _)]; [| done].
      injection Hup as <- <-. split; [done |].
      exists (b ++ concat later).
      rewrite Heq, concat_app. simpl. by rewrite <- !app_assoc.
    + injection Hup as <- <-. split; [done |].
      exists (concat later). by rewrite Heq, concat_app.
    + injection Hup as <- <-. split; [done |]. exists []. by rewrite app_nil_r.
    + destruct Hfinal as ((e & He) & _). congruence.
  - destruct (Inv_run_any c name bs w0 Hbs ms _ s (or_introl (Inv_start c name bs w0)) Hrun)
      as [Hinv | (_ & _ & _ & (acc & rest & Hlog & Hcat & _))]; [| right; eauto].
    destruct (Inv_log c name bs w0 s Hinv) as [Hl | ->]; [by left | right].
    destruct Hfinal as (_ & _ & _ & (acc & rest & Hlog & Hcat & _)). eauto.
  - intros Hd.
    assert (Hinv : Inv c name bs w0 s).
    { apply (Inv_run c name bs w0 Hbs ms (write_close_init name bs w0));
        [done | apply Inv_start | done]. }
    destruct Hinv as [| done pre b later u Heq Hpre Hu | done later Heq Hdone | |].
    + by eexists.
    + exists (oks ((pre ++ b) :: later) ++ [CloseResult None]).
      simpl results. by rewrite Heq, oks_app, <- app_assoc.
    + exists (oks later ++ [CloseResult None]).
      simpl results. by rewrite Heq, oks_app, <- app_assoc.
    + exists []. by rewrite app_nil_r.
    + exists []. rewrite app_nil_r. symmetry. apply final_results.
Qed.

End OrderFurther.


(** ** The answer the dispatcher lets through *)

Section Unreadable.
Context `{Library}.

(** X18.  On an error answer in plain text whose body cannot be read, the
    dispatcher returns no body, length zero and a nil error: the error of
    the read is lost.  The calls that close the body on their way out
    (get-metadata, list-folder, list-folder-continue, upload, and with them
    Stat and list-up-to-n) then panic on the nil body; download returns an
    output with a nil body and a nil error, and the first read of a
    handle, and read-all, panic on it. *)
Theorem dispatcher_lets_unreadable_through (c : Client) (name : string)
    (r : transport_result) (rest : list transport_result) (lg : list (Request * bytes)) :
  unreadable_text_error r ->
  let w := {| script := r :: rest; log := lg |} in
  (forall req sent,
      Req_Body req = None /\ sent = [] \/ Req_Body req = Some (BytesReader sent) ->
      Client_do None req w
      = Ret ((None, 0, None), {| script := rest; log := lg ++ [(req, sent)] |})) /\
  (forall in_, Files_GetMetadata c in_ w = Panic) /\
  (forall in_, Files_ListFolder c in_ w = Panic) /\
  (forall in_, Files_ListFolderContinue c in_ w = Panic) /\
  Client_Stat c name w = Panic /\
  (forall n, Client_ListN c name n w = Panic) /\
  (forall path mode autorename mute modified b,
      Files_Upload None c {| up_Path := path; up_Mode := mode; up_AutoRename := autorename;
                             up_Mute := mute; up_ClientModified := modified;
                             up_Reader := BytesReader <$> b |} w = Panic) /\
  (exists w', Files_Download c {| dl_Path := name |} w = Ret ((Some (None, 0), None), w')) /\
  (forall k, File_Read c k (Client_Open name) w = Panic) /\
  (forall fuel sizes, (0 < fuel)%nat -> Client_Read fuel c name sizes w = Panic).
Proof.
  intros Hu w. pose proof (unreadable_text_error_finish r Hu) as Hf.
  assert (Hread : forall k, File_Read c k (Client_Open name) w = Panic).
  { intros k. unfold File_Read, File_download, bind.
    change (reader (Client_Open name)) with (@None Body). cbv beta iota.
    change (Name (Client_Open name)) with name. unfold w.
    rewrite Files_Download_script, Hf. reflexivity. }
  split; [| split; [| split; [| split; [| split; [| split; [| split; [| split; [| split]]]]]]]].
  - intros req sent Hb. rewrite (Client_do_memory None req w sent Hb).
    unfold w, round_trip. simpl. by rewrite Hf.
  - intros in_. unfold Files_GetMetadata, bind, w. by rewrite Client_call_script, Hf.
  - intros in_. unfold Files_ListFolder, bind, w. by rewrite Client_call_script, Hf.
  - intros in_. unfold Files_ListFolderContinue, bind, w.
    by rewrite Client_call_script, Hf.
  - unfold Client_Stat, Files_GetMetadata, bind, w. by rewrite Client_call_script, Hf.
  - intros n. unfold Client_ListN, w. cbn [script length ListN_loop]. unfold bind at 1.
    by rewrite (listing_call_request c name "" r rest lg), Hf.
  - intros path mode autorename mute modified b.
    unfold Files_Upload, Client_download, bind.
    rewrite (Client_do_memory None _ w (default [] b))
      by (unfold download_request; destruct b; simpl; [right | left]; auto).
    unfold w, round_trip. simpl. by rewrite Hf.
  - unfold w. rewrite Files_Download_script, Hf. eauto.
  - exact Hread.
  - intros fuel sizes Hfuel. destruct fuel as [| fuel]; [lia |].
    unfold Client_Read, bind. cbn [ReadAll_loop]. unfold bind at 1.
    by rewrite Hread.
Qed.

End Unreadable.

(** * Further examples *)

Example List_two_pages :
  let p1 := {| Cursor := "c1"; HasMore := true;
               Entries := [file_entry "x"; folder_entry "y"] |} in
  let p2 := {| Cursor := "c2"; HasMore := false; Entries := [file_entry "z"] |} in
  let pages := [p1; p2] in
  let L := example_library [] (page_table pages) in
  let c := {| AccessToken := "token" |} in
  0 <= 0 /\
  Forall2 page_answer (page_responses pages) pages /\
  listing pages /\
  Client_ListN c "/" 0 {| script := page_responses pages ++ []; log := [] |}
  = Ret ((map Build_FileInfo [file_entry "x"; folder_entry "y"; file_entry "z"], None),
         {| script := []; log := [] ++ listing_requests c "/" "" pages |}).
Proof.
  intros p1 p2 pages L c.
  assert (H0 : 0 <= 0) by lia.
  assert (Hrs : Forall2 page_answer (page_responses pages) pages).
  { repeat constructor; eexists; (split; [reflexivity |]); (split; [simpl; lia |]);
      vm_compute; reflexivity. }
  assert (Hl : listing pages) by (simpl; auto).
  split; [exact H0 |]. split; [exact Hrs |]. split; [exact Hl |].
  exact (ListN_all_entries c "/" 0 (page_responses pages) [] pages [] H0 Hrs Hl).
Defined.

Example List_fails_on_second_page :
  let p1 := {| Cursor := "c1"; HasMore := true;
               Entries := [file_entry "x"; folder_entry "y"] |} in
  let L := example_library [] (page_table [p1]) in
  let c := {| AccessToken := "token" |} in
  let r := TResp (response 500 "text/plain" "boom") in
  let err := ServiceError {| Status := "Internal Server Error"; StatusCode := 500;
                             Summary := "boom"; Payload := None |} in
  Forall2 page_answer (page_responses [p1]) [p1] /\
  Forall (fun p => HasMore p = true) [p1] /\
  (0 <= 0 \/ Z.of_nat (length (entries [p1])) < 0) /\
  failing_answer r err /\
  exists lg',
    Client_ListN c "/" 0 {| script := page_responses [p1] ++ [r]; log := [] |}
    = Ret ((map Build_FileInfo [file_entry "x"; folder_entry "y"], Some err),
           {| script := []; log := [] ++ lg' |}) /\
    length lg' = 2%nat.
Proof.
  intros p1 L c r err.
  assert (Hrs : Forall2 page_answer (page_responses [p1]) [p1]).
  { repeat constructor; eexists; (split; [reflexivity |]); (split; [simpl; lia |]);
      vm_compute; reflexivity. }
  assert (Hm : Forall (fun p => HasMore p = true) [p1]) by (repeat constructor).
  assert (Hn : 0 <= 0 \/ Z.of_nat (length (entries [p1])) < 0) by (left; lia).
  assert (Hf : failing_answer r err) by (left; reflexivity).
  split; [exact Hrs |]. split; [exact Hm |]. split; [exact Hn |]. split; [exact Hf |].
  exact (ListN_error_keeps_entries c "/" 0 (page_responses [p1]) [p1] r err [] []
           Hrs Hm Hn Hf).
Defined.

Example ListN_cap_two_of_three :
  let p1 := {| Cursor := "c1"; HasMore := true;
               Entries := [file_entry "x"; folder_entry "y"] |} in
  let p2 := {| Cursor := "c2"; HasMore := false; Entries := [file_entry "z"] |} in
  let pages := [p1; p2] in
  let L := example_library [] (page_table pages) in
  let c := {| AccessToken := "token" |} in
  0 < 2 /\
  exists out err w',
    Client_ListN c "/" 2 {| script := page_responses pages; log := [] |}
    = Ret ((out, err), w') /\
    Z.of_nat (length out) <= 2 /\ (err = None -> out <> []).
Proof.
  intros p1 p2 pages L c.
  assert (H2 : 0 < 2) by lia.
  split; [exact H2 |].
  eexists _, _, _.
  match goal with
  | |- ?E /\ _ => assert (Hrun : E) by (vm_compute; reflexivity)
  end.
  split; [exact Hrun |].
  exact (ListN_cap_is_respected c "/" 2 _ _ _ _ H2 Hrun).
Defined.

Example ListN_null_page :
  let L := example_library_null [] [] in
  let c := {| AccessToken := "token" |} in
  let res := response 200 "application/json" "null" in
  Res_StatusCode res < 400 /\
  decode_ListFolderOutput (Res_Body res) = (None, None) /\
  Client_ListN c "/" 0 {| script := [TResp res]; log := [] |} = Panic.
Proof.
  intros L c res.
  assert (Hc : Res_StatusCode res < 400) by (simpl; lia).
  assert (Hd : decode_ListFolderOutput (Res_Body res) = (None, None)) by reflexivity.
  split; [exact Hc |]. split; [exact Hd |].
  exact (ListN_nil_page_panics c "/" 0 res [] [] Hc Hd).
Defined.

Example ListFolders_of_mixed_pages :
  let p1 := {| Cursor := "c1"; HasMore := true;
               Entries := [file_entry "x"; folder_entry "y"] |} in
  let p2 := {| Cursor := "c2"; HasMore := false; Entries := [folder_entry "z"] |} in
  let pages := [p1; p2] in
  let L := example_library [] (page_table pages) in
  let c := {| AccessToken := "token" |} in
  let w := {| script := page_responses pages ++ []; log := [] |} in
  let w' := {| script := []; log := [] ++ listing_requests c "/docs" "" pages |} in
  Forall2 page_answer (page_responses pages) pages /\
  listing pages /\
  Client_ListFolders c "/docs" w
  = Ret ((map Build_FileInfo [folder_entry "y"; folder_entry "z"], None), w') /\
  Client_ListFiles c "/docs" w = Ret ((map Build_FileInfo [file_entry "x"], None), w').
Proof.
  intros p1 p2 pages L c w w'.
  assert (Hrs : Forall2 page_answer (page_responses pages) pages).
  { repeat constructor; eexists; (split; [reflexivity |]); (split; [simpl; lia |]);
      vm_compute; reflexivity. }
  assert (Hl : listing pages) by (simpl; auto).
  split; [exact Hrs |]. split; [exact Hl |].
  destruct (ListFolders_ListFiles_split c "/docs" (page_responses pages) [] pages [] Hrs Hl)
    as (Hfolders & Hfiles & _).
  split; [exact Hfolders | exact Hfiles].
Defined.

Example ListFiles_fails_on_second_page :
  let p1 := {| Cursor := "c1"; HasMore := true;
               Entries := [file_entry "x"; folder_entry "y"] |} in
  let L := example_library [] (page_table [p1]) in
  let c := {| AccessToken := "token" |} in
  let r := TErr (OtherError "connection reset") in
  Forall2 page_answer (page_responses [p1]) [p1] /\
  Forall (fun p => HasMore p = true) [p1] /\
  failing_answer r (OtherError "connection reset") /\
  exists w',
    Client_ListFilter c "/" (fun i => negb (FileInfo_IsDir i))
      {| script := page_responses [p1] ++ [r]; log := [] |}
    = Ret (([], Some (OtherError "connection reset")), w') /\
    script w' = [].
Proof.
  intros p1 L c r.
  assert (Hrs : Forall2 page_answer (page_responses [p1]) [p1]).
  { repeat constructor; eexists; (split; [reflexivity |]); (split; [simpl; lia |]);
      vm_compute; reflexivity. }
  assert (Hm : Forall (fun p => HasMore p = true) [p1]) by (repeat constructor).
  assert (Hf : failing_answer r (OtherError "connection reset")) by (left; reflexivity).
  split; [exact Hrs |]. split; [exact Hm |]. split; [exact Hf |].
  exact (ListFilter_error_drops_entries c "/" (fun i => negb (FileInfo_IsDir i))
           (page_responses [p1]) [p1] r _ [] [] Hrs Hm Hf).
Defined.

Example Stat_missing_file :
  let L := example_library
             [("not found",
               JObject [("error_summary", JString "path/not_found/..")])] [] in
  let c := {| AccessToken := "token" |} in
  let r := TResp (response 409 "application/json" "not found") in
  let err := ServiceError
               {| Status := "Conflict"; StatusCode := 409; Summary := "";
                  Payload := Some (JObject [("error_summary",
                                             JString "path/not_found/..")]) |} in
  Client_do_finish r = (None, 0, Some err) /\
  HasPrefix (error_Error err) "path/not_found/" = true /\
  exists w', Client_Stat c "/missing" {| script := [r]; log := [] |}
             = Ret ((None, Some err), w').
Proof.
  intros L c r err.
  assert (Hf : Client_do_finish r = (None, 0, Some err)) by reflexivity.
  split; [exact Hf |]. split; [reflexivity |].
  destruct (Stat_passes_errors_through c "/missing" r [] []) as (Herr & _).
  eexists. exact (Herr err Hf).
Defined.

Example Size_of_huge_file :
  let f := {| meta := {| md_Tag := "file"; md_Name := "huge"; md_PathLower := "";
                         md_PathDisplay := ""; md_ClientModified := "";
                         md_ServerModified := ""; md_Rev := "";
                         md_Size := 2 ^ 63; md_ID := ""; md_ContentHash := "" |} |} in
  0 <= md_Size (meta f) < 2 ^ 64 /\
  2 ^ 63 <= md_Size (meta f) /\
  FileInfo_Size f = md_Size (meta f) - 2 ^ 64 /\ FileInfo_Size f < 0.
Proof.
  intros f.
  assert (Hr : 0 <= md_Size (meta f) < 2 ^ 64) by (simpl; lia).
  assert (Hb : 2 ^ 63 <= md_Size (meta f)) by (simpl; lia).
  split; [exact Hr |]. split; [exact Hb |].
  destruct (FileInfo_Size_wraps f Hr) as (_ & _ & Hbig).
  exact (Hbig Hb).
Defined.

Example Read_all_hello :
  let L := example_library [] [] in
  let c := {| AccessToken := "token" |} in
  let res := response 200 "application/octet-stream" "hello" in
  let sizes := fun _ : nat => 2%nat in
  (forall i, (0 < sizes i)%nat) /\
  Res_StatusCode res < 400 /\
  isClosed (Res_Body res) = false /\
  (length (data (Res_Body res)) < 10)%nat /\
  Client_Read 10 c "/hello.txt" sizes {| script := [TResp res]; log := [] |}
  = Ret ((list_byte_of_string "hello", None),
         {| script := [];
            log := [] ++ [(download_request c "/files/download"
                             (JObject [("path", JString "/hello.txt")]) None, [])] |}).
Proof.
  intros L c res sizes.
  assert (Hp : forall i, (0 < sizes i)%nat) by (intros i; unfold sizes; lia).
  assert (Hc : Res_StatusCode res < 400) by (simpl; lia).
  assert (Ho : isClosed (Res_Body res) = false) by reflexivity.
  assert (Hl : (length (data (Res_Body res)) < 10)%nat) by (simpl; lia).
  split; [exact Hp |]. split; [exact Hc |]. split; [exact Ho |]. split; [exact Hl |].
  exact (Read_all_returns_body 10 c "/hello.txt" sizes res [] [] Hp Hc Ho Hl).
Defined.

Example Read_all_missing_file :
  let L := example_library
             [("not found",
               JObject [("error_summary", JString "path/not_found/..")])] [] in
  let c := {| AccessToken := "token" |} in
  let r := TResp (response 409 "application/json" "not found") in
  let err := ServiceError
               {| Status := "Conflict"; StatusCode := 409; Summary := "";
                  Payload := Some (JObject [("error_summary",
                                             JString "path/not_found/..")]) |} in
  (0 < 1)%nat /\
  Client_do_finish r = (None, 0, Some err) /\
  Client_Read 1 c "/missing" (fun _ => 512%nat) {| script := [r]; log := [] |}
  = Ret (([], Some (PathError "open" "/missing" ENOENT)),
         {| script := [];
            log := [] ++ [(download_request c "/files/download"
                             (JObject [("path", JString "/missing")]) None, [])] |}).
Proof.
  intros L c r err.
  assert (H1 : (0 < 1)%nat) by lia.
  assert (Hf : Client_do_finish r = (None, 0, Some err)) by reflexivity.
  split; [exact H1 |]. split; [exact Hf |].
  exact (Read_all_download_error 1 c "/missing" (fun _ => 512%nat) r err [] [] H1 Hf).
Defined.

Example Read_all_error_with_empty_body :
  let L := example_library [] [] in
  let c := {| AccessToken := "token" |} in
  let res := response 500 "application/json" "" in
  (0 < 1)%nat /\
  400 <= Res_StatusCode res /\
  Contains (Header_Get "Content-Type" (Res_Header res)) "text/plain" = false /\
  decode_Payload (Res_Body res) = inl EOF /\
  exists w',
    Client_Read 1 c "/a.bin" (fun _ => 512%nat) {| script := [TResp res]; log := [] |}
    = Ret (([], None), w') /\
    script w' = [].
Proof.
  intros L c res.
  assert (H1 : (0 < 1)%nat) by lia.
  assert (Hc : 400 <= Res_StatusCode res) by (simpl; lia).
  assert (Hk : Contains (Header_Get "Content-Type" (Res_Header res)) "text/plain" = false)
    by reflexivity.
  assert (Hd : decode_Payload (Res_Body res) = inl EOF) by reflexivity.
  split; [exact H1 |]. split; [exact Hc |]. split; [exact Hk |]. split; [exact Hd |].
  exact (Read_all_hides_empty_error_body 1 c "/a.bin" (fun _ => 512%nat) res [] []
           H1 Hc Hk Hd).
Defined.

Example two_writes_one_upload :
  let L := example_library [] [] in
  let c := {| AccessToken := "token" |} in
  let ab := list_byte_of_string "ab" in
  let cd := list_byte_of_string "cd" in
  let ops := [OpWrite ab; OpWrite cd; OpClose; OpWrite ab; OpClose] in
  let ms := [MCaller; MUploader; MTransfer 2; MCaller; MTransfer 1; MTransfer 1;
             MCaller; MUploader; MCaller; MCaller; MCaller] in
  let w0 := {| script := []; log := [] |} in
  exists s,
    run c ms (Machine_init "/a.txt" ops w0) = Some s /\
    todo s = [] /\
    (uploads (log (world s)) <= uploads (log w0) + 1)%nat /\
    (uploads (log (world s)) = (uploads (log w0) + 1)%nat <-> exists err, up s = UDone err).
Proof.
  intros L c ab cd ops ms w0.
  eexists.
  match goal with
  | |- ?E /\ _ => assert (Hrun : E) by (vm_compute; reflexivity)
  end.
  split; [exact Hrun |]. split; [reflexivity |].
  destruct (handle_uploads_at_most_once c "/a.txt" ops w0 ms _ Hrun) as (Hle & Hiff & _).
  split; [exact Hle | exact Hiff].
Defined.

Example Close_with_failing_body :
  let e := OtherError "close failed" in
  let b := {| data := list_byte_of_string "rest"; readErr := None;
              closeErr := Some e; isClosed := false |} in
  let f := {| Name := "/a.txt"; closed := false; writing := false; reader := Some b;
              pipe := {| rerr := None; werr := None |} |} in
  closed f = false /\
  reader f = Some b /\
  fst (File_Close f) = Some e /\
  closed (snd (File_Close f)) = true /\
  fst (File_Close (snd (File_Close f))) = Some (PathError "close" "/a.txt" EINVAL).
Proof.
  intros e b f.
  assert (Hc : closed f = false) by reflexivity.
  assert (Hr : reader f = Some b) by reflexivity.
  destruct (Close_releases_what_is_held f Hc)
    as (Hclosed & _ & _ & _ & _ & Hbody & _ & Hagain).
  destruct (Hbody b Hr) as [Herr _].
  split; [exact Hc |]. split; [exact Hr |]. split; [exact Herr |].
  split; [exact Hclosed | exact Hagain].
Defined.

Example bytes_in_order_midway :
  let L := example_library [] [] in
  let c := {| AccessToken := "token" |} in
  let hello := list_byte_of_string "hello" in
  let there := list_byte_of_string "there" in
  let ms := [MCaller; MUploader; MTransfer 3; MAnswer] in
  let w0 := {| script := [TErr (OtherError "connection reset")]; log := [] |} in
  [hello; there] <> [] /\
  exists s,
    run c ms (write_close_init "/a.txt" [hello; there] w0) = Some s /\
    log (world s) = [(upload_request c "/a.txt", list_byte_of_string "hel")] /\
    (log (world s) = log w0 \/
     exists acc rest, log (world s) = log w0 ++ [(upload_request c "/a.txt", acc)] /\
                      concat [hello; there] = acc ++ rest).
Proof.
  intros L c hello there ms w0.
  assert (Hne : [hello; there] <> []) by discriminate.
  split; [exact Hne |].
  eexists.
  match goal with
  | |- ?E /\ _ => assert (Hrun : E) by (vm_compute; reflexivity)
  end.
  split; [exact Hrun |]. split; [reflexivity |].
  destruct (bytes_reach_transport_in_order c "/a.txt" [hello; there] w0 ms _ Hne Hrun)
    as (_ & Hlog & _).
  exact Hlog.
Defined.

Example Download_of_hello :
  let L := example_library [] [] in
  let c := {| AccessToken := "token" |} in
  let res := response 200 "application/octet-stream" "hello" in
  let req := download_request c "/files/download"
               (JObject [("path", JString "/hello.txt")]) None in
  Res_StatusCode res < 400 /\
  Files_Download c {| dl_Path := "/hello.txt" |} {| script := [TResp res]; log := [] |}
  = Ret ((Some (Some (Res_Body res), 5), None),
         {| script := []; log := [] ++ [(req, [])] |}).
Proof.
  intros L c res req.
  assert (Hc : Res_StatusCode res < 400) by (simpl; lia).
  split; [exact Hc |].
  destruct (Download_is_decoded_Stream c {| dl_Path := "/hello.txt" |} [] [])
    as (_ & _ & Hdown).
  exact (Hdown res Hc).
Defined.

Example unreadable_overloaded :
  let L := example_library [] [] in
  let c := {| AccessToken := "token" |} in
  let res := {| Res_StatusCode := 500;
                Res_Header := Header_Set "Content-Type" "text/plain; charset=utf-8" ∅;
                Res_Body := {| data := list_byte_of_string "server over";
                               readErr := Some (OtherError "unexpected EOF");
                               closeErr := None; isClosed := false |};
                ContentLength := 17 |} in
  let w := {| script := [TResp res]; log := [] |} in
  unreadable_text_error (TResp res) /\
  Client_Stat c "/a.bin" w = Panic /\
  Client_ListN c "/" 0 w = Panic /\
  (exists w', Files_Download c {| dl_Path := "/a.bin" |} w = Ret ((Some (None, 0), None), w')) /\
  Client_Read 1 c "/a.bin" (fun _ => 512%nat) w = Panic.
Proof.
  intros L c res w.
  assert (Hu : unreadable_text_error (TResp res)).
  { exists res. split; [reflexivity |]. split; [simpl; lia |]. split; [reflexivity |].
    eexists. reflexivity. }
  split; [exact Hu |].
  destruct (dispatcher_lets_unreadable_through c "/a.bin" (TResp res) [] [] Hu)
    as (_ & _ & _ & _ & Hstat & _ & _ & Hdown & _ & Hread).
  split; [exact Hstat |]. split; [reflexivity |]. split; [exact Hdown |].
  exact (Hread 1%nat (fun _ => 512%nat) (Nat.lt_0_1)).
Defined.
